(** * AskMyCourse: lecture ingestion and conversational question answering

    A shallow embedding of [ask-my-course/_api/api.py]: the chunking loop
    of [index_lecture], the status markers of the ingestion pipeline and
    the [answer] endpoint, with the properties the design document
    states about them. *)

From Stdlib Require Import QArith.QArith_base.
From stdpp Require Import gmap strings list fin_maps.

(** ** Python primitives used by the service *)

Module Py.

(** [range(start, stop, step)] for a positive [step]: CPython computes
    the length up front and yields [start + k * step]. *)
Definition range_len (start stop step : nat) : nat :=
  if decide (start < stop) then (stop - start - 1) `div` step + 1 else 0.

Definition range (start stop step : nat) : list nat :=
  (λ k, start + k * step) <$> seq 0 (range_len start stop step).

(** [l[i:j]] for non-negative bounds: clipped to the list, never an error. *)
Definition slice {A} (l : list A) (i j : nat) : list A :=
  take (j - i) (drop i l).

(** [l[-n:]] for [n > 0]: the last [n] items, or all of [l] when shorter. *)
Definition suffix {A} (l : list A) (n : nat) : list A :=
  drop (length l - n) l.

(** [l[:n]]. *)
Definition prefix {A} (l : list A) (n : nat) : list A := take n l.

(** [l[0]] and [l[-1]] raise IndexError on an empty list. *)
Definition first {A} (l : list A) : option A := head l.
Definition final {A} (l : list A) : option A := last l.

(** [sep.join(l)]. *)
Definition join (sep : string) (l : list string) : string :=
  String.concat sep l.

(** [sorted(l, key=key)] with integer keys. Python's sort is stable; the
    insertion below keeps an earlier item before later items of equal key. *)
Fixpoint insert_by {A} (key : A → Z) (x : A) (l : list A) : list A :=
  match l with
  | [] => [x]
  | y :: l' =>
      if decide (key x ≤ key y)%Z then x :: y :: l'
      else y :: insert_by key x l'
  end.

Definition sorted {A} (key : A → Z) (l : list A) : list A :=
  foldr (insert_by key) [] l.

(** [str.isspace] on the code points below 256, and [str.strip()]. *)
Definition isspace (c : Ascii.ascii) : bool :=
  let n := Ascii.nat_of_ascii c in
  bool_decide (9 ≤ n ≤ 13) || bool_decide (28 ≤ n ≤ 32)
  || bool_decide (n = 133) || bool_decide (n = 160).

Fixpoint lstrip (s : string) : string :=
  match s with
  | String c s' => if isspace c then lstrip s' else s
  | EmptyString => EmptyString
  end.

Fixpoint rstrip (s : string) : string :=
  match s with
  | String c s' =>
      match rstrip s' with
      | EmptyString => if isspace c then EmptyString else String c EmptyString
      | r => String c r
      end
  | EmptyString => EmptyString
  end.

Definition strip (s : string) : string := rstrip (lstrip s).

(** Truthiness of an [Optional[str]] and the value of [x or y]. *)
Definition truthy (x : option string) : bool :=
  match x with
  | None => false
  | Some s => negb (bool_decide (s = ""%string))
  end.

Definition or_ (x y : option string) : option string :=
  if truthy x then x else y.

End Py.

(** ** Data model *)

(** The [value] of a timestamp tag: media-relative times, JSON numbers that
    the service copies and never computes with. *)
Record TagValue := mkTagValue {
  start_time : Q;
  end_time : Q
}.

(** A Steamship [Tag]. File-level tags carry [kind] and [name] ("source",
    "title", "status"); the transcriber's "timestamp" tags on a block carry
    the token text in [name], its span and its times. *)
Record Tag := mkTag {
  tag_id : nat;
  file_id : nat;
  kind : string;
  name : string;
  start_idx : Z;
  end_idx : Z;
  value : TagValue
}.

Record Metadata := mkMetadata {
  md_start_time : Q;
  md_end_time : Q;
  md_start_idx : Z;
  md_end_idx : Z;
  md_source : string
}.

(** langchain's [Document]. *)
Record Document := mkDocument {
  page_content : string;
  metadata : Metadata
}.

(** ** The chunker: the loop of [index_lecture] *)

Module Chunker.

Definition context_window_size : nat := 200.
Definition context_window_overlap : nat := 50.

(** The step of the loop: [context_window_size - context_window_overlap]. *)
Definition stride : nat := context_window_size - context_window_overlap.

(** The values of [i]: [range(0, len(timestamps), size - overlap)]. *)
Definition window_starts {A} (timestamps : list A) : list nat :=
  Py.range 0 (length timestamps) stride.

(** [timestamps[i: i + context_window_size]]. *)
Definition timestamp_tags_window {A} (timestamps : list A) (i : nat) : list A :=
  Py.slice timestamps i (i + context_window_size).

(** The windows in the order the loop visits them. *)
Definition windows {A} (timestamps : list A) : list (list A) :=
  timestamp_tags_window timestamps <$> window_starts timestamps.

(** The body of the loop for one window; [None] is the IndexError of
    [window[0]] or [window[-1]] on an empty window. *)
Definition make_document (source : string) (window : list Tag)
  : option Document :=
  head_tag ← Py.first window;
  last_tag ← Py.final window;
  Some {| page_content := Py.join " " (name <$> window);
          metadata := {| md_start_time := start_time (value head_tag);
                         md_end_time := end_time (value last_tag);
                         md_start_idx := start_idx last_tag;
                         md_end_idx := end_idx last_tag;
                         md_source := source |} |}.

(** The loop: one document per window, appended in order; an exception
    in one iteration ends the loop. *)
Definition documents (source : string) (timestamps : list Tag)
  : option (list Document) :=
  mapM (λ i, make_document source (timestamp_tags_window timestamps i))
       (window_starts timestamps).

(** Lines 107-108: the block's timestamp tags, sorted by [start_idx]. *)
Definition timestamps_of (tags : list Tag) : list Tag :=
  Py.sorted start_idx (filter (λ tag, kind tag = "timestamp"%string) tags).

End Chunker.

(** ** The Steamship workspace and the effects of the service *)

Module Steamship.

(** A block of a file with the tags the transcriber attached to it. *)
Record Block := mkBlock {
  block_tags : list Tag
}.

(** What the workspace stores for a file. *)
Record FileData := mkFileData {
  stored_tags : list Tag;
  stored_blocks : list Block
}.

(** The client-side [File] object: a snapshot taken by [File.get] or
    [file.refresh()]. *)
Record File := mkFile {
  file_ident : nat;
  file_tags : list Tag;
  blocks : list Block
}.

Record Task := mkTask {
  task_id : nat;
  output_file_id : nat
}.

(** An [invoke_later] request: the method with its arguments
    [{task_id, source}] and the tasks it waits on. *)
Record Invocation := mkInvocation {
  method : string;
  arg_task_id : nat;
  arg_source : string;
  wait_on_tasks : list nat
}.

#[export] Instance Invocation_eq_dec : EqDecision Invocation.
Proof. solve_decision. Defined.

(** Behaviour of the external services that the code cannot control: which
    tag deletions raise [SteamshipError], the title pytube resolves for a
    source (if any), and whether the vector index rejects a batch. *)
Record Env := mkEnv {
  delete_fails : nat → bool;
  youtube_title : string → option string;
  add_documents_fails : list Document → bool
}.

(** The workspace. Identifiers are opaque in the code; they are numbered
    here so that fresh ones can be drawn. [created_tags] records every
    [Tag.create], oldest first. *)
Record World := mkWorld {
  env : Env;
  files : gmap nat FileData;
  tasks : gmap nat nat;
  completed : gset nat;
  next_id : nat;
  index : list Document;
  created_tags : list Tag;
  scheduled : list Invocation;
  blockify_tasks : list (nat * nat);
  imports : list (nat * string)
}.

Definition set_files (v : gmap nat FileData) (w : World) : World :=
  mkWorld (env w) v (tasks w) (completed w) (next_id w) (index w)
    (created_tags w) (scheduled w) (blockify_tasks w) (imports w).

Definition set_tasks (v : gmap nat nat) (w : World) : World :=
  mkWorld (env w) (files w) v (completed w) (next_id w) (index w)
    (created_tags w) (scheduled w) (blockify_tasks w) (imports w).

Definition set_completed (v : gset nat) (w : World) : World :=
  mkWorld (env w) (files w) (tasks w) v (next_id w) (index w)
    (created_tags w) (scheduled w) (blockify_tasks w) (imports w).

Definition set_next_id (v : nat) (w : World) : World :=
  mkWorld (env w) (files w) (tasks w) (completed w) v (index w)
    (created_tags w) (scheduled w) (blockify_tasks w) (imports w).

Definition set_index (v : list Document) (w : World) : World :=
  mkWorld (env w) (files w) (tasks w) (completed w) (next_id w) v
    (created_tags w) (scheduled w) (blockify_tasks w) (imports w).

Definition set_created_tags (v : list Tag) (w : World) : World :=
  mkWorld (env w) (files w) (tasks w) (completed w) (next_id w) (index w)
    v (scheduled w) (blockify_tasks w) (imports w).

Definition set_scheduled (v : list Invocation) (w : World) : World :=
  mkWorld (env w) (files w) (tasks w) (completed w) (next_id w) (index w)
    (created_tags w) v (blockify_tasks w) (imports w).

Definition set_blockify_tasks (v : list (nat * nat)) (w : World) : World :=
  mkWorld (env w) (files w) (tasks w) (completed w) (next_id w) (index w)
    (created_tags w) (scheduled w) v (imports w).

Definition set_imports (v : list (nat * string)) (w : World) : World :=
  mkWorld (env w) (files w) (tasks w) (completed w) (next_id w) (index w)
    (created_tags w) (scheduled w) (blockify_tasks w) v.

(** *** Exceptions and the state-and-exception monad *)

Inductive Exn := SteamshipError | IndexError | PytubeError.

(** An exception keeps the effects made before it was raised. *)
Inductive Result (A : Type) :=
| Ok (a : A) (w : World)
| Raise (e : Exn) (w : World).
Arguments Ok {A} a w.
Arguments Raise {A} e w.

Definition world_of {A} (r : Result A) : World :=
  match r with Ok _ w => w | Raise _ w => w end.

Definition M (A : Type) : Type := World → Result A.

#[export] Instance M_ret : MRet M := λ A a w, Ok a w.

#[export] Instance M_bind : MBind M := λ A B f m w,
  match m w with
  | Ok a w' => f a w'
  | Raise e w' => Raise e w'
  end.

Definition get {A} (f : World → A) : M A := λ w, Ok (f w) w.
Definition modify (f : World → World) : M unit := λ w, Ok () (f w).
Definition raise {A} (e : Exn) : M A := λ w, Raise e w.

Definition from_option {A} (e : Exn) (o : option A) : M A :=
  match o with
  | Some a => mret a
  | None => raise e
  end.

Definition fresh : M nat :=
  λ w, Ok (next_id w) (set_next_id (S (next_id w)) w).

(** [try: body except SteamshipError: pass]. *)
Definition try_except_SteamshipError (body : M unit) : M unit := λ w,
  match body w with
  | Raise SteamshipError w' => Ok () w'
  | r => r
  end.

(** [for x in l: body(x)]. *)
Fixpoint for_ {A} (l : list A) (body : A → M unit) : M unit :=
  match l with
  | [] => mret ()
  | x :: l' => body x;; for_ l' body
  end.

(** *** The Steamship client calls the service makes *)

(** [Task.get(client, task_id)] and the file id in the task's output; a task
    with no file in its output is treated like an unknown one. *)
Definition Task_get (task_id : nat) : M Task :=
  o ← get (λ w, tasks w !! task_id);
  from_option SteamshipError (mkTask task_id <$> o).

Definition snapshot (fid : nat) (d : FileData) : File :=
  mkFile fid (stored_tags d) (stored_blocks d).

(** [File.get(client, id)]. *)
Definition File_get (fid : nat) : M File :=
  o ← get (λ w, files w !! fid);
  from_option SteamshipError (snapshot fid <$> o).

(** [file.refresh()]: it raises when the file is gone; no other failure
    of the call is modelled. *)
Definition File_refresh (file : File) : M File :=
  File_get (file_ident file).

(** [Tag.create(client, file_id=..., kind=..., name=...)]: span and value
    are unset on such a tag (read as 0; the service never reads them). The
    call raises when the file is not there; no other failure of the call
    is modelled, so that a status update on an existing file completes
    here. What is proved about the inside of [index_lecture] is therefore
    stated for the outcomes of its calls, one after the other. *)
Definition new_tag (i fid : nat) (kind name : string) : Tag :=
  mkTag i fid kind name 0 0 (mkTagValue 0 0).

Definition attach (t : Tag) (d : FileData) : FileData :=
  mkFileData (stored_tags d ++ [t]) (stored_blocks d).

Definition Tag_create (fid : nat) (kind name : string) : M Tag :=
  o ← get (λ w, files w !! fid);
  d ← from_option SteamshipError o;
  i ← fresh;
  let t := new_tag i fid kind name in
  modify (λ w, set_created_tags (created_tags w ++ [t])
                 (set_files (<[fid := attach t d]> (files w)) w));;
  mret t.

Definition remove_tag (i : nat) (d : FileData) : FileData :=
  mkFileData (filter (λ t, tag_id t ≠ i) (stored_tags d)) (stored_blocks d).

Definition has_tag (i : nat) (d : FileData) : Prop :=
  Exists (λ t, tag_id t = i) (stored_tags d).

(** [tag.delete()]: the workspace deletes by tag id. It raises
    [SteamshipError] when the service fails (the tag stays) and when the
    tag is already gone. *)
Definition Tag_delete (t : Tag) : M unit := λ w,
  if delete_fails (env w) (tag_id t) then Raise SteamshipError w
  else if decide (map_Exists (λ _ d, has_tag (tag_id t) d) (files w))
  then Ok () (set_files (remove_tag (tag_id t) <$> files w) w)
  else Raise SteamshipError w.

(** [self._get_index().add_documents(documents)]. A batch the index
    rejects is rejected as a whole here; the properties of a failed
    insertion say nothing about the vector index after it. *)
Definition add_documents (docs : list Document) : M unit := λ w,
  if add_documents_fails (env w) docs then Raise SteamshipError w
  else Ok () (set_index (index w ++ docs) w).

(** [YouTube(source).title]. *)
Definition YouTube_title (source : string) : M string :=
  o ← get (λ w, youtube_title (env w) source);
  from_option PytubeError o.

(** [file.blockify(plugin)]: starts the transcription, returns its task. *)
Definition blockify (file : File) : M nat :=
  t ← fresh;
  modify (λ w, set_blockify_tasks
                 (blockify_tasks w ++ [(t, file_ident file)]) w);;
  mret t.

(** [File.create_with_plugin(client, plugin_instance=importer, url=...)]:
    starts the import, returns its task. *)
Definition File_create_with_plugin (url : string) : M nat :=
  t ← fresh;
  modify (λ w, set_imports (imports w ++ [(t, url)]) w);;
  mret t.

(** [self.invoke_later(method=..., arguments=..., wait_on_tasks=...)]. *)
Definition invoke_later (method : string) (task_id : nat) (source : string)
    (wait_on_tasks : list nat) : M nat :=
  t ← fresh;
  modify (λ w, set_scheduled
                 (scheduled w ++
                    [mkInvocation method task_id source wait_on_tasks]) w);;
  mret t.

End Steamship.

(** ** The ingestion pipeline *)

Module Ingestion.
Import Steamship.

Definition is_status (tag : Tag) : Prop := kind tag = "status"%string.

#[export] Instance is_status_dec tag : Decision (is_status tag).
Proof. unfold is_status. apply _. Defined.

(** [_update_file_status], lines 88-98. *)
Definition _update_file_status (file : File) (status : string) : M unit :=
  file ← File_refresh file;
  let status_tags := filter is_status (file_tags file) in
  for_ status_tags (λ status_tag,
    try_except_SteamshipError (Tag_delete status_tag));;
  Tag_create (file_ident file) "status" status;;
  mret ().

(** [index_lecture], lines 100-132. *)
Definition index_lecture (task_id : nat) (source : string) : M bool :=
  file_create_task ← Task_get task_id;
  file ← File_get (output_file_id file_create_task);
  _update_file_status file "Indexing";;
  block ← from_option IndexError (blocks file !! 0);
  let tags := block_tags block in
  let timestamps := Chunker.timestamps_of tags in
  documents ← from_option IndexError (Chunker.documents source timestamps);
  add_documents documents;;
  _update_file_status file "Indexed";;
  mret true.

(** [transcribe_lecture], lines 134-150. *)
Definition transcribe_lecture (task_id : nat) (source : string) : M nat :=
  file_create_task ← Task_get task_id;
  file ← File_get (output_file_id file_create_task);
  Tag_create (file_ident file) "source" source;;
  title ← YouTube_title source;
  Tag_create (file_ident file) "title" title;;
  _update_file_status file "Transcribing";;
  transcribe_lecture_task ← blockify file;
  invoke_later "index_lecture" (Steamship.task_id file_create_task) source
    [transcribe_lecture_task].

(** [add_lecture], lines 152-163. *)
Definition add_lecture (youtube_url : string) : M bool :=
  file_create_task ← File_create_with_plugin youtube_url;
  invoke_later "transcribe_lecture" file_create_task youtube_url
    [file_create_task];;
  mret true.

(** The names of the status markers among [tags] that belong to file
    [fid], in order. *)
Definition history_of (fid : nat) (tags : list Tag) : list string :=
  name <$> filter (λ t, is_status t ∧ file_id t = fid) tags.

(** The names of the status markers created for file [fid], oldest first. *)
Definition status_history (fid : nat) (w : World) : list string :=
  history_of fid (created_tags w).

(** The status markers the record of [fid] carries. *)
Definition status_markers (fid : nat) (w : World) : list Tag :=
  match files w !! fid with
  | Some d => filter is_status (stored_tags d)
  | None => []
  end.

(** How the job scheduler runs an invocation: it calls the endpoint the
    method names with the recorded arguments. The scheduler and the
    import and transcription tasks belong to the Steamship platform, not
    to the service; they are modelled here as the design describes them
    (section 5): an invocation runs once, after the tasks it waits on
    have completed, and a task completes once. *)
Definition dispatch (inv : Invocation) : M unit :=
  if decide (method inv = "index_lecture"%string) then
    index_lecture (arg_task_id inv) (arg_source inv);; mret ()
  else if decide (method inv = "transcribe_lecture"%string) then
    transcribe_lecture (arg_task_id inv) (arg_source inv);; mret ()
  else raise SteamshipError.

(** The import started as task [t] completes: a new file appears and the
    task's output names it. *)
Definition import_done (t : nat) (w : World) : World :=
  set_imports (filter (λ p, p.1 ≠ t) (imports w))
    (set_completed ({[t]} ∪ completed w)
       (set_tasks (<[t := next_id w]> (tasks w))
          (set_files (<[next_id w := mkFileData [] []]> (files w))
             (set_next_id (S (next_id w)) w)))).

(** The transcription of file [fid] started as task [t] completes: the
    file gets one block carrying the transcriber's tags. *)
Definition blockify_done (t fid : nat) (tags : list Tag) (w : World) : World :=
  set_blockify_tasks (filter (λ p, p.1 ≠ t) (blockify_tasks w))
    (set_completed ({[t]} ∪ completed w)
       (set_files (alter (λ d, mkFileData (stored_tags d) [mkBlock tags]) fid
                     (files w)) w)).

(** One step of the pipeline: a request to [add_lecture], the scheduler
    running an invocation whose tasks have completed (the invocation
    leaves the schedule), or the completion of an external task. An
    endpoint that raises keeps the effects it made. *)
Inductive pipeline_step : World → World → Prop :=
| pipeline_add_lecture w url :
    pipeline_step w (world_of (add_lecture url w))
| pipeline_scheduled w inv :
    inv ∈ scheduled w →
    Forall (λ t, t ∈ completed w) (wait_on_tasks inv) →
    pipeline_step w
      (world_of (dispatch inv
                   (set_scheduled (filter (λ i, i ≠ inv) (scheduled w)) w)))
| pipeline_import_done w t url :
    (t, url) ∈ imports w →
    pipeline_step w (import_done t w)
| pipeline_blockify_done w t fid tags :
    (t, fid) ∈ blockify_tasks w →
    pipeline_step w (blockify_done t fid tags w).

(** One step of the system: a step of the pipeline, or a request to a
    stage endpoint from any other caller. *)
Inductive step : World → World → Prop :=
| step_pipeline w w' :
    pipeline_step w w' → step w w'
| step_transcribe_lecture w t source :
    step w (world_of (transcribe_lecture t source w))
| step_index_lecture w t source :
    step w (world_of (index_lecture t source w)).

(** The empty workspace. *)
Definition initial (e : Env) : World :=
  mkWorld e ∅ ∅ ∅ 0 [] [] [] [] [].

End Ingestion.

(** ** The conversational question-answering endpoint *)

Module QA.

(** One chat turn: (question, answer). *)
Definition Turn : Type := string * string.

(** [AskMyCourseConfig], lines 26-28. *)
Record AskMyCourseConfig := mkConfig {
  index_name : string;
  default_chat_session_id : option string
}.

(** Modelled from the spec: the Chat History Store behind [ChatHistory]
    (module [chat_history], not among the sources), section 4.4: [load]
    returns all turns of the session, oldest first, and the empty sequence
    if none exist. *)
Definition ChatHistory_load (chat_session_id : option string)
    (store : gmap (option string) (list Turn)) : list Turn :=
  default [] (store !! chat_session_id).

(** Modelled from the spec: [append] of the Chat History Store (module
    [chat_history], not among the sources), section 4.4: it adds one turn
    to the session. *)
Definition ChatHistory_append (chat_session_id : option string)
    (question answer : string)
    (store : gmap (option string) (list Turn))
  : gmap (option string) (list Turn) :=
  <[chat_session_id :=
      ChatHistory_load chat_session_id store ++ [(question, answer)]]> store.

(** The calls a chain makes to the services behind it. *)
Inductive ServiceCall :=
| CondenseQuestion (question : string) (chat_history : list Turn)
| SimilaritySearch (query : string) (k : nat)
| CombineDocs (docs : list Document) (question : string).

(** The chain's output: [result["answer"]], [result["source_documents"]]. *)
Record ChainResult := mkChainResult {
  chain_answer : string;
  source_documents : list Document
}.

(** The service object: its configuration and [self.qa_chain]. One call of
    the chain yields a result and the service calls made for it, or fails
    with an exception ([None]). *)
Record AskMyCourse := mkAskMyCourse {
  config : AskMyCourseConfig;
  qa_chain : string → list Turn → option (ChainResult * list ServiceCall)
}.

(** What a call of [answer] does, in order. *)
Inductive Event :=
| HistoryLoad (chat_session_id : option string)
| ChainCall (question : string) (chat_history : list Turn)
    (calls : list ServiceCall)
| HistoryAppend (chat_session_id : option string) (question answer : string).

(** The returned dictionary [{"answer": ..., "sources": ...}]. *)
Record Response := mkResponse {
  response_answer : string;
  sources : list Document
}.

Definition no_sources_answer : string :=
  "No sources found to answer your question. Please try another question.".

(** [answer], lines 165-185: the response, the Chat History Store after the
    call and the events of the call. *)
Definition answer (self : AskMyCourse) (question : string)
    (chat_session_id : option string)
    (store : gmap (option string) (list Turn))
  : option (Response * gmap (option string) (list Turn) * list Event) :=
  let chat_session_id :=
    Py.or_ chat_session_id (default_chat_session_id (config self)) in
  let chat_history := ChatHistory_load chat_session_id store in
  '(result, calls) ← qa_chain self question chat_history;
  let events :=
    [HistoryLoad chat_session_id; ChainCall question chat_history calls] in
  if decide (length (source_documents result) = 0) then
    Some (mkResponse no_sources_answer (source_documents result),
          store, events)
  else
    let answer := chain_answer result in
    let sources := source_documents result in
    Some (mkResponse (Py.strip answer) sources,
          ChatHistory_append chat_session_id question answer store,
          events ++ [HistoryAppend chat_session_id question answer]).

(** langchain's [ChatVectorDBChain] with the parts [_get_chain] gives it
    (lines 49-68): the vector store, the answer-synthesis chain
    ([load_qa_chain], "stuff") and the question-condensing chain. *)
Record ChatVectorDBChain := mkChain {
  vectorstore : string → nat → list Document;
  combine_docs_chain : list Document → string → list Turn → string;
  question_generator : string → list Turn → string;
  top_k_docs_for_context : nat
}.

Definition _get_chain
    (doc_index : string → nat → list Document)
    (doc_chain : list Document → string → list Turn → string)
    (question_chain : string → list Turn → string) : ChatVectorDBChain :=
  mkChain doc_index doc_chain question_chain 2.

(** A call of langchain's chain (library code, outside this repository):
    the question is condensed when there is history, the vector store is
    searched, and the documents found, however many, go to the
    answer-synthesis chain; the result holds the answer and the documents. *)
Definition ChatVectorDBChain_call (chain : ChatVectorDBChain)
    (question : string) (chat_history : list Turn)
  : option (ChainResult * list ServiceCall) :=
  let '(new_question, condense) :=
    match chat_history with
    | [] => (question, [])
    | _ => (question_generator chain question chat_history,
            [CondenseQuestion question chat_history])
    end in
  let docs := vectorstore chain new_question (top_k_docs_for_context chain) in
  let answer := combine_docs_chain chain docs new_question chat_history in
  Some (mkChainResult answer docs,
        condense ++ [SimilaritySearch new_question
                       (top_k_docs_for_context chain);
                     CombineDocs docs new_question]).

(** The service calls of a whole [answer] call. *)
Definition service_calls (events : list Event) : list ServiceCall :=
  events ≫= λ e, match e with ChainCall _ _ calls => calls | _ => [] end.

Definition is_combine_docs (c : ServiceCall) : bool :=
  match c with CombineDocs _ _ => true | _ => false end.

End QA.

(** ** Vocabulary for the effects of the pipeline *)

Module Effects.
Import Steamship Ingestion.

(** The ids of the tags of [l] whose deletion goes through. *)
Definition deleted_ids (e : Env) (l : list Tag) : list nat :=
  tag_id <$> filter (λ t, delete_fails e (tag_id t) = false) l.

(** A file's data once the tags with an id in [ids] are gone. *)
Definition purge (ids : list nat) (d : FileData) : FileData :=
  mkFileData (filter (λ t, tag_id t ∉ ids) (stored_tags d)) (stored_blocks d).

(** The workspace after [Tag.create] on file [fid], whose data was [d]. *)
Definition tag_created (fid : nat) (kind name : string) (d : FileData)
    (w : World) : World :=
  mkWorld (env w)
    (<[fid := attach (new_tag (next_id w) fid kind name) d]> (files w))
    (tasks w) (completed w) (S (next_id w)) (index w)
    (created_tags w ++ [new_tag (next_id w) fid kind name])
    (scheduled w) (blockify_tasks w) (imports w).

(** The workspace after the deletion loop of [_update_file_status] over
    the status tags of [d]. *)
Definition status_purged (d : FileData) (w : World) : World :=
  set_files
    (purge (deleted_ids (env w) (filter is_status (stored_tags d)))
       <$> files w) w.

(** The workspace after [_update_file_status] on file [fid], whose data
    was [d]. *)
Definition status_updated (fid : nat) (status : string) (d : FileData)
    (w : World) : World :=
  tag_created fid "status" status
    (purge (deleted_ids (env w) (filter is_status (stored_tags d))) d)
    (status_purged d w).

(** The data of file [fid] after [_update_file_status], when it was [d]. *)
Definition status_data (fid : nat) (status : string) (d : FileData)
    (w : World) : FileData :=
  attach (new_tag (next_id w) fid "status" status)
    (purge (deleted_ids (env w) (filter is_status (stored_tags d))) d).

(** The workspace after [file.blockify] on file [fid]. *)
Definition blockify_started (fid : nat) (w : World) : World :=
  mkWorld (env w) (files w) (tasks w) (completed w) (S (next_id w)) (index w)
    (created_tags w) (scheduled w)
    (blockify_tasks w ++ [(next_id w, fid)]) (imports w).

(** The workspace after [File.create_with_plugin] on [url]. *)
Definition import_started (url : string) (w : World) : World :=
  mkWorld (env w) (files w) (tasks w) (completed w) (S (next_id w)) (index w)
    (created_tags w) (scheduled w) (blockify_tasks w)
    (imports w ++ [(next_id w, url)]).

(** The workspace after [invoke_later]. *)
Definition later_scheduled (inv : Invocation) (w : World) : World :=
  mkWorld (env w) (files w) (tasks w) (completed w) (S (next_id w)) (index w)
    (created_tags w) (scheduled w ++ [inv])
    (blockify_tasks w) (imports w).

(** The workspace after [transcribe_lecture] succeeded on file [fid] with
    data [d], import task [t] and resolved [title]. *)
Definition transcribing (t fid : nat) (source title : string) (d : FileData)
    (w : World) : World :=
  let d1 := attach (new_tag (next_id w) fid "source" source) d in
  let d2 := attach (new_tag (S (next_id w)) fid "title" title) d1 in
  let w3 :=
    status_updated fid "Transcribing" d2
      (tag_created fid "title" title d1
         (tag_created fid "source" source d w)) in
  later_scheduled (mkInvocation "index_lecture" t source [next_id w3])
    (blockify_started fid w3).

(** The workspace after [index_lecture] succeeded on file [fid] with data
    [d] and inserted [docs]. *)
Definition indexed (fid : nat) (docs : list Document) (d : FileData)
    (w : World) : World :=
  let w1 := status_updated fid "Indexing" d w in
  status_updated fid "Indexed" (status_data fid "Indexing" d w)
    (set_index (index w1 ++ docs) w1).

(** The order of the status markers of a lecture. *)
Definition status_order : list string :=
  ["Transcribing"; "Indexing"; "Indexed"]%string.

(** What an endpoint call leaves alone: the tasks' outputs and the pending
    imports stay, identifiers only grow, no file appears or disappears,
    the record of created tags only grows, tags are created on existing
    files only, and a tag a file carries was there before or has been
    created for that file. *)
Record frame (w w' : World) : Prop := mkFrame {
  fr_tasks : tasks w' = tasks w;
  fr_imports : imports w' = imports w;
  fr_next : next_id w ≤ next_id w';
  fr_files : ∀ f, is_Some (files w' !! f) ↔ is_Some (files w !! f);
  fr_mono : ∀ tag, tag ∈ created_tags w → tag ∈ created_tags w';
  fr_tags : ∀ tag, tag ∈ created_tags w' →
                   tag ∈ created_tags w ∨ is_Some (files w !! file_id tag);
  fr_stored : ∀ f d' tag,
    files w' !! f = Some d' → tag ∈ stored_tags d' →
    (∃ d, files w !! f = Some d ∧ tag ∈ stored_tags d)
    ∨ (tag ∈ created_tags w' ∧ file_id tag = f)
}.

(** Where a scheduled invocation stands: [transcribe_lecture] waits for a
    file that has no status yet, [index_lecture] for a file whose only
    status so far is "Transcribing". *)
Definition stage_of (inv : Invocation) (w : World) : Prop :=
  (method inv = "transcribe_lecture"%string ∧
   ∀ f, tasks w !! arg_task_id inv = Some f → status_history f w = [])
  ∨ (method inv = "index_lecture"%string ∧
     ∃ f, tasks w !! arg_task_id inv = Some f ∧
          status_history f w = ["Transcribing"%string]).

(** The invariant of the pipeline. *)
Record pipeline_inv (w : World) : Prop := mkPipelineInv {
  inv_tasks : ∀ t f, tasks w !! t = Some f → t < next_id w ∧ f < next_id w;
  inv_files : ∀ f, is_Some (files w !! f) → f < next_id w;
  inv_tags : ∀ tag, tag ∈ created_tags w → is_Some (files w !! file_id tag);
  inv_inj : ∀ t1 t2 f,
    tasks w !! t1 = Some f → tasks w !! t2 = Some f → t1 = t2;
  inv_imports : ∀ t url,
    (t, url) ∈ imports w → tasks w !! t = None ∧ t < next_id w;
  inv_sched_bound : ∀ inv, inv ∈ scheduled w → arg_task_id inv < next_id w;
  inv_sched_uniq : ∀ a b,
    a ∈ scheduled w → b ∈ scheduled w →
    arg_task_id a = arg_task_id b → a = b;
  inv_sched_stage : ∀ inv, inv ∈ scheduled w → stage_of inv w;
  inv_order : ∀ f, status_history f w `prefix_of` status_order;
  inv_stored : ∀ f d tag,
    files w !! f = Some d → tag ∈ stored_tags d →
    tag ∈ created_tags w ∧ file_id tag = f
}.

(** The status markers one endpoint call can add to a file's history. *)
Definition one_call (ext : list string) : Prop :=
  ext = [] ∨ ext = ["Transcribing"%string] ∨ ext = ["Indexing"%string]
  ∨ ext = ["Indexing"; "Indexed"]%string.

(** Every "Indexed" of a status history comes right after an "Indexing". *)
Definition indexed_after_indexing (history : list string) : Prop :=
  ∀ i, history !! i = Some "Indexed"%string →
       ∃ j, i = S j ∧ history !! j = Some "Indexing"%string.

End Effects.

(** ** The lecture listing *)

Module Listing.
Import Steamship Ingestion.

(** An entry of the listing: the dictionary
    [{"source": ..., "status": ..., "title": ...}]. *)
Record Lecture := mkLecture {
  lecture_source : string;
  lecture_status : string;
  lecture_title : string
}.

(** [[tag for tag in file.tags if tag.kind == k]]. *)
Definition tags_of_kind (k : string) (file : File) : list Tag :=
  filter (λ tag, kind tag = k) (file_tags file).

(** [tags[0].name if tags else "unknown"]. *)
Definition first_name (tags : list Tag) : string :=
  match tags with
  | tag :: _ => name tag
  | [] => "unknown"
  end.

(** Truthiness of a list: non-empty. *)
Definition nonempty {A} (l : list A) : bool :=
  match l with
  | [] => false
  | _ :: _ => true
  end.

(** One round of the loop of [get_lectures], lines 75-85: the entry the
    file adds to [lectures], if it adds one. *)
Definition lecture_entry (file : File) : option Lecture :=
  let source_tags := tags_of_kind "source" file in
  let status_tags := tags_of_kind "status" file in
  let title_tags := tags_of_kind "title" file in
  if nonempty source_tags && nonempty status_tags then
    Some {| lecture_source := first_name source_tags;
            lecture_status := first_name status_tags;
            lecture_title := first_name title_tags |}
  else None.

(** The loop over [files], lines 73-86. *)
Fixpoint lectures_of (files : list File) : list Lecture :=
  match files with
  | [] => []
  | file :: files' =>
      match lecture_entry file with
      | Some lecture => lecture :: lectures_of files'
      | None => lectures_of files'
      end
  end.

(** [File.list(client).files]: the files of the workspace with their
    tags. The code does not depend on the order of the listing; the
    model lists the files in the order of the store. *)
Definition File_list : M (list File) :=
  get (λ w, (λ p, snapshot p.1 p.2) <$> map_to_list (files w)).

(** [get_lectures], lines 70-86. *)
Definition get_lectures : M (list Lecture) :=
  files ← File_list;
  mret (lectures_of files).

End Listing.

(** ** Vocabulary for the properties of the chunks and of the answers *)

Module Shapes.

(** Window [k] of the loop holds position [j] of the token sequence. *)
Definition covers {A} (timestamps : list A) (k j : nat) : Prop :=
  ∃ window, Chunker.windows timestamps !! k = Some window ∧
            k * Chunker.stride ≤ j ∧ j - k * Chunker.stride < length window.

(** The keys of [l] never decrease. *)
Definition ordered_by {A} (key : A → Z) (l : list A) : Prop :=
  ∀ i j a b, i ≤ j → l !! i = Some a → l !! j = Some b → (key a ≤ key b)%Z.

(** Every item of [l] is followed by items of greater or equal key only. *)
Fixpoint sorted_by {A} (key : A → Z) (l : list A) : Prop :=
  match l with
  | [] => True
  | x :: l' => Forall (λ y, (key x ≤ key y)%Z) l' ∧ sorted_by key l'
  end.

(** The characters of a string. *)
Fixpoint chars (s : string) : list Ascii.ascii :=
  match s with
  | EmptyString => []
  | String c s' => c :: chars s'
  end.

(** [s] neither begins nor ends with white space. *)
Definition trimmed (s : string) : Prop :=
  (∀ c, head (chars s) = Some c → Py.isspace c = false) ∧
  (∀ c, last (chars s) = Some c → Py.isspace c = false).

End Shapes.

(** ** Sample data *)

Module Examples.
Import Steamship Ingestion.

(** Token number [i] of a transcript: a one-letter word with its span and
    its times in seconds. *)
Definition token (i : nat) : Tag :=
  mkTag i 0 "timestamp"
    (String (Ascii.ascii_of_nat (97 + i `mod` 26)) EmptyString)
    (Z.of_nat i) (Z.of_nat i + 1)
    (mkTagValue (inject_Z (Z.of_nat i)) (inject_Z (Z.of_nat i + 1))).

(** A transcript of [n] tokens, in order. *)
Definition transcript (n : nat) : list Tag := token <$> seq 0 n.

(** A failing tag service: deleting the tag with id [i] raises. *)
Definition deletion_of_fails (i : nat) : Steamship.Env :=
  Steamship.mkEnv (λ j, bool_decide (j = i)) (λ _, Some "Lecture 1"%string)
    (λ _, false).

(** A tag service that never fails. *)
Definition reliable : Steamship.Env :=
  Steamship.mkEnv (λ _, false) (λ _, Some "Lecture 1"%string) (λ _, false).

Definition source_tag : Tag :=
  Steamship.new_tag 0 7 "source" "https://youtu.be/abc".

Definition transcribing_tag : Tag :=
  Steamship.new_tag 1 7 "status" "Transcribing".

(** A workspace with the lecture file 7, imported by task 5, that carries
    its source and the status marker "Transcribing". *)
Definition lecture_world (e : Steamship.Env) : Steamship.World :=
  Steamship.mkWorld e
    {[ 7 := Steamship.mkFileData [source_tag; transcribing_tag] [] ]}
    {[ 5 := 7 ]} {[ 5 ]} 8 []
    [source_tag; transcribing_tag] [] [] [].

Definition lecture_file : Steamship.File :=
  Steamship.mkFile 7 [source_tag; transcribing_tag] [].

(** A vector index that rejects every batch. *)
Definition index_down : Steamship.Env :=
  Steamship.mkEnv (λ _, false) (λ _, Some "Lecture 1"%string) (λ _, true).

(** The lecture file 7 once transcribed: its record carries the source
    and the marker "Transcribing", and one block with a three-token
    transcript. *)
Definition transcribed_lecture : Steamship.FileData :=
  Steamship.mkFileData [source_tag; transcribing_tag]
    [Steamship.mkBlock (transcript 3)].

(** The workspace with that file while the vector index is down. *)
Definition stalled_world : Steamship.World :=
  Steamship.mkWorld index_down {[ 7 := transcribed_lecture ]}
    {[ 5 := 7 ]} {[ 5 ]} 8 []
    [source_tag; transcribing_tag] [] [] [].

(** A run of the pipeline from the empty workspace: the lecture is added,
    its import (task 0) completes and yields file 2, the scheduler runs
    [transcribe_lecture], the transcription (task 6) completes with a
    three-token transcript, the scheduler runs [index_lecture]. *)
Definition lecture_url : string := "https://youtu.be/abc".

Definition transcribe_inv : Steamship.Invocation :=
  Steamship.mkInvocation "transcribe_lecture" 0 lecture_url [0].

Definition index_inv : Steamship.Invocation :=
  Steamship.mkInvocation "index_lecture" 0 lecture_url [6].

Definition run1 : Steamship.World :=
  Steamship.world_of
    (Ingestion.add_lecture lecture_url (Ingestion.initial reliable)).

Definition run2 : Steamship.World := Ingestion.import_done 0 run1.

Definition run3 : Steamship.World :=
  Steamship.world_of
    (Ingestion.dispatch transcribe_inv
       (Steamship.set_scheduled
          (filter (λ i, i ≠ transcribe_inv) (Steamship.scheduled run2))
          run2)).

Definition run4 : Steamship.World :=
  Ingestion.blockify_done 6 2 (transcript 3) run3.

Definition run5 : Steamship.World :=
  Steamship.world_of
    (Ingestion.dispatch index_inv
       (Steamship.set_scheduled
          (filter (λ i, i ≠ index_inv) (Steamship.scheduled run4))
          run4)).


(** A retrieved passage. *)
Definition passage : Document :=
  mkDocument "x is a thing"
    (mkMetadata (inject_Z 0) (inject_Z 90) 199 200 lecture_url).

(** langchain's chain over an index that holds nothing: every search
    comes back empty, and the answer model still completes its prompt. *)
Definition chain_over_empty_index : QA.ChatVectorDBChain :=
  QA._get_chain (λ _ _, []) (λ _ _ _, "I do not know."%string) (λ q _, q).

(** langchain's chain over an index that holds [passage]; the answer
    model pads its completion with white space. *)
Definition chain_over_passage : QA.ChatVectorDBChain :=
  QA._get_chain (λ _ _, [passage]) (λ _ _ _, " X is a thing. "%string)
    (λ q _, q).

(** The service with the default configuration and the given chain. *)
Definition service (chain : QA.ChatVectorDBChain) : QA.AskMyCourse :=
  QA.mkAskMyCourse (QA.mkConfig "lectures" (Some "default"%string))
    (QA.ChatVectorDBChain_call chain).

End Examples.

(** ** More sample data *)

Module Cases.
Import Steamship Ingestion Examples.

(** Services that work, except that no title can be resolved. *)
Definition no_title : Env := mkEnv (λ _, false) (λ _, None) (λ _, false).

(** A workspace with the file 7 as the import (task 5) left it: no tag,
    no block. *)
Definition imported_world (e : Env) : World :=
  mkWorld e {[ 7 := mkFileData [] [] ]} {[ 5 := 7 ]} {[ 5 ]} 8 [] [] [] [] [].

(** The lecture file 7 after its transcription: it carries its source and
    the marker "Transcribing", and one block with a transcript of 160
    tokens. *)
Definition transcribed_data : FileData :=
  mkFileData [source_tag; transcribing_tag] [mkBlock (transcript 160)].

Definition transcribed_world : World :=
  mkWorld reliable {[ 7 := transcribed_data ]} {[ 5 := 7 ]} {[ 5 ]} 8 []
    [source_tag; transcribing_tag] [] [] [].

(** The chunks of that transcript: two windows, [0,160) and [150,160). *)
Definition transcript_chunks : list Document :=
  default []
    (Chunker.documents lecture_url (Chunker.timestamps_of (transcript 160))).

End Cases.

(** * Properties *)

(** ** Facts about the Python primitives *)

Section PyFacts.
Context {A : Type}.
Implicit Types (l : list A) (i j k n : nat).

Lemma range_len_lt stop step k :
  0 < step → k < Py.range_len 0 stop step ↔ k * step < stop.
Proof.
  intros Hstep. unfold Py.range_len. case_decide as Hs.
  - replace (stop - 0 - 1) with (stop - 1) by lia.
    pose proof (Nat.div_mod (stop - 1) step ltac:(lia)) as Hdm.
    pose proof (Nat.mod_upper_bound (stop - 1) step ltac:(lia)) as Hub.
    split; intros Hk; nia.
  - split; intros Hk; lia.
Qed.

Lemma range_lookup stop step k i :
  0 < step →
  Py.range 0 stop step !! k = Some i ↔ i = k * step ∧ k * step < stop.
Proof.
  intros Hstep. unfold Py.range. rewrite list_lookup_fmap.
  rewrite <- (range_len_lt stop step k Hstep). split.
  - intros Hk. destruct (seq 0 _ !! k) as [k'|] eqn:E; [|done].
    apply lookup_seq in E as [-> Hlt]. simpl in Hk. split; [congruence|done].
  - intros [-> Hlt]. by rewrite lookup_seq_lt.
Qed.

Lemma slice_lookup l i j k :
  k < j - i → Py.slice l i j !! k = l !! (i + k).
Proof.
  intros Hk. unfold Py.slice. by rewrite lookup_take_lt, lookup_drop.
Qed.

Lemma slice_length l i j :
  length (Py.slice l i j) = (j - i) `min` (length l - i).
Proof. unfold Py.slice. by rewrite length_take, length_drop. Qed.

Lemma insert_by_Permutation (key : A → Z) x l :
  Py.insert_by key x l ≡ₚ x :: l.
Proof.
  induction l as [|y l IH]; simpl; [done|].
  case_decide; [done|]. rewrite IH. apply Permutation_swap.
Qed.

Lemma sorted_Permutation (key : A → Z) l : Py.sorted key l ≡ₚ l.
Proof.
  induction l as [|x l IH]; simpl; [done|].
  fold (Py.sorted key l). by rewrite insert_by_Permutation, IH.
Qed.

End PyFacts.

(** The primitives on small inputs. *)

Example range_three : Py.range 0 301 150 = [0; 150; 300].
Proof. reflexivity. Qed.

Example range_exact : Py.range 0 300 150 = [0; 150].
Proof. reflexivity. Qed.

Example slice_clipped : Py.slice [1; 2; 3; 4; 5] 3 10 = [4; 5].
Proof. reflexivity. Qed.

Example suffix_short : Py.suffix [1; 2; 3] 50 = [1; 2; 3].
Proof. reflexivity. Qed.

Example join_words : Py.join " " ["so"; "we"; "begin"]%string = "so we begin"%string.
Proof. reflexivity. Qed.

Example sorted_is_stable :
  Py.sorted fst [(2, "a"); (1, "b"); (2, "c"); (1, "d")]%Z
  = [(1, "b"); (1, "d"); (2, "a"); (2, "c")]%Z.
Proof. reflexivity. Qed.

Example strip_both_ends :
  Py.strip "  X is a thing.  " = "X is a thing."%string.
Proof. reflexivity. Qed.

Example strip_keeps_inner : Py.strip "a b" = "a b"%string.
Proof. reflexivity. Qed.

(** ** Facts about the chunking loop *)

Section Windows.
Import Chunker.
Context {A : Type}.
Implicit Types (timestamps window : list A) (i j k : nat).

Lemma window_starts_lookup timestamps k i :
  window_starts timestamps !! k = Some i ↔
  i = k * stride ∧ k * stride < length timestamps.
Proof.
  apply range_lookup.
  unfold stride, context_window_size, context_window_overlap. lia.
Qed.

Lemma windows_lookup timestamps k window :
  windows timestamps !! k = Some window ↔
  k * stride < length timestamps ∧
  window = timestamp_tags_window timestamps (k * stride).
Proof.
  unfold windows. rewrite list_lookup_fmap. split.
  - intros Hw. destruct (window_starts timestamps !! k) as [i|] eqn:E; [|done].
    apply window_starts_lookup in E as [-> Hlt]. simpl in Hw.
    split; [done|congruence].
  - intros [Hlt ->].
    assert (window_starts timestamps !! k = Some (k * stride)) as ->; [|done].
    by apply window_starts_lookup.
Qed.

Lemma window_length timestamps i :
  length (timestamp_tags_window timestamps i) =
  context_window_size `min` (length timestamps - i).
Proof.
  unfold timestamp_tags_window. rewrite slice_length. f_equal. lia.
Qed.

Lemma window_lookup timestamps i j :
  j < context_window_size →
  timestamp_tags_window timestamps i !! j = timestamps !! (i + j).
Proof.
  intros Hj. unfold timestamp_tags_window. apply slice_lookup. lia.
Qed.

Lemma window_first timestamps i :
  Py.first (timestamp_tags_window timestamps i) = timestamps !! i.
Proof.
  unfold Py.first. rewrite head_lookup, window_lookup.
  - f_equal. lia.
  - unfold context_window_size. lia.
Qed.

Lemma window_final timestamps i :
  i < length timestamps →
  Py.final (timestamp_tags_window timestamps i) =
  timestamps !! ((i + context_window_size) `min` length timestamps - 1).
Proof.
  intros Hi. unfold Py.final. rewrite last_lookup, window_length.
  rewrite window_lookup; [f_equal|]; unfold context_window_size; lia.
Qed.

End Windows.

(** ** The documents of the chunking loop *)

Section Documents.
Import Chunker.
Implicit Types (timestamps window : list Tag) (source : string).

Lemma make_document_nonempty source window :
  window ≠ [] → is_Some (make_document source window).
Proof.
  intros Hne. unfold make_document, Py.first, Py.final.
  destruct window as [|t window]; [done|]. simpl.
  destruct (last_is_Some (t :: window)) as [_ [lst ->]]; [done|].
  simpl. eauto.
Qed.

Lemma window_nonempty timestamps i :
  i < length timestamps → timestamp_tags_window timestamps i ≠ [].
Proof.
  intros Hi Hnil. pose proof (window_length timestamps i) as Hl.
  rewrite Hnil in Hl. cbn [length] in Hl.
  unfold context_window_size in Hl. lia.
Qed.

(** The loop never raises: every window it slices is non-empty. *)
Lemma documents_total source timestamps :
  is_Some (documents source timestamps).
Proof.
  unfold documents. apply mapM_is_Some, Forall_lookup.
  intros k i Hk. apply window_starts_lookup in Hk as [-> Hlt].
  apply make_document_nonempty, window_nonempty, Hlt.
Qed.

Lemma documents_length source timestamps docs :
  documents source timestamps = Some docs →
  length docs = length (windows timestamps).
Proof.
  intros Hd. apply length_mapM in Hd. unfold windows.
  by rewrite length_fmap.
Qed.

Lemma documents_lookup source timestamps docs k doc :
  documents source timestamps = Some docs →
  docs !! k = Some doc →
  k * stride < length timestamps ∧
  make_document source (timestamp_tags_window timestamps (k * stride))
  = Some doc.
Proof.
  intros Hd Hk. apply mapM_Some in Hd.
  destruct (Forall2_lookup_r _ _ _ _ _ Hd Hk) as (i & Hi & Hdoc).
  apply window_starts_lookup in Hi as [-> Hlt]. done.
Qed.

End Documents.

(** ** Coverage and overlap of the windows *)

Section Coverage.
Import Chunker.
Context {A : Type}.
Implicit Types (timestamps window : list A) (i j k : nat).

Lemma stride_eq : stride = 150.
Proof. reflexivity. Qed.

(** Index [j] lies in the window that starts at the largest multiple of
    the stride not above [j]. *)
Lemma index_covered timestamps j t :
  timestamps !! j = Some t →
  windows timestamps !! (j `div` stride)
  = Some (timestamp_tags_window timestamps (j `div` stride * stride)) ∧
  timestamp_tags_window timestamps (j `div` stride * stride)
    !! (j - j `div` stride * stride) = Some t.
Proof.
  intros Hj. pose proof (lookup_lt_Some _ _ _ Hj) as Hlt.
  rewrite stride_eq.
  pose proof (Nat.div_mod j 150 ltac:(lia)) as Hdm.
  pose proof (Nat.mod_upper_bound j 150 ltac:(lia)) as Hub.
  split.
  - apply windows_lookup. rewrite stride_eq. split; [lia|done].
  - rewrite window_lookup; [|unfold context_window_size; lia].
    rewrite <- Hj. f_equal. lia.
Qed.

(** What two consecutive windows share: window [k] from offset [stride]
    on is the beginning of window [k + 1]. *)
Lemma windows_shared timestamps k w1 w2 :
  windows timestamps !! k = Some w1 →
  windows timestamps !! (S k) = Some w2 →
  drop stride w1 = take (length w1 - stride) w2.
Proof.
  intros [Hk ->]%windows_lookup [HSk ->]%windows_lookup.
  rewrite window_length. rewrite stride_eq in *.
  unfold timestamp_tags_window, Py.slice, context_window_size.
  apply list_eq. intros i.
  rewrite lookup_drop, !lookup_take, !lookup_drop.
  repeat case_decide;
    first [ lia | done | f_equal; lia
          | apply lookup_ge_None_2; lia
          | symmetry; apply lookup_ge_None_2; lia ].
Qed.

End Coverage.

(** ** The chunker's contract *)

Section ChunkerContract.
Import Chunker.

(** C1 (as amended): for two consecutive windows of the chunking loop,
    window i from offset 150 (the stride) on is the beginning of window
    i+1; when window i is full (200 tokens) this says that the last 50
    tokens of window i equal the first 50 tokens of window i+1. *)
Theorem consecutive_windows_overlap {A} (timestamps : list A) k w1 w2 :
  windows timestamps !! k = Some w1 →
  windows timestamps !! (S k) = Some w2 →
  drop stride w1 = take (length w1 - stride) w2 ∧
  (length w1 = context_window_size →
   Py.suffix w1 context_window_overlap = Py.prefix w2 context_window_overlap).
Proof.
  intros H1 H2. pose proof (windows_shared _ _ _ _ H1 H2) as Hs.
  split; [exact Hs|].
  intros Hfull. unfold Py.suffix, Py.prefix.
  rewrite Hfull in *. exact Hs.
Qed.

(** C4: every document of the loop has the window's token texts joined by
    single spaces as its content, start_time from the first token of the
    window, end_time, start_idx and end_idx from the last token of the
    window, and the given source; the loop yields one document per window
    and never raises. *)
Theorem document_fields source (timestamps : list Tag) :
  ∃ docs,
    documents source timestamps = Some docs ∧
    length docs = length (windows timestamps) ∧
    ∀ k doc, docs !! k = Some doc →
      ∃ window head_tag last_tag,
        windows timestamps !! k = Some window ∧
        timestamps !! (k * stride) = Some head_tag ∧
        window !! 0 = Some head_tag ∧
        timestamps !! ((k * stride + context_window_size)
                         `min` length timestamps - 1) = Some last_tag ∧
        last window = Some last_tag ∧
        page_content doc = Py.join " " (name <$> window) ∧
        md_start_time (metadata doc) = start_time (value head_tag) ∧
        md_end_time (metadata doc) = end_time (value last_tag) ∧
        md_start_idx (metadata doc) = start_idx last_tag ∧
        md_end_idx (metadata doc) = end_idx last_tag ∧
        md_source (metadata doc) = source.
Proof.
  destruct (documents_total source timestamps) as [docs Hdocs].
  exists docs. split; [done|]. split; [by eapply documents_length|].
  intros k doc Hk.
  destruct (documents_lookup _ _ _ _ _ Hdocs Hk) as [Hlt Hmk].
  unfold make_document in Hmk.
  destruct (Py.first _) as [head_tag|] eqn:Hfirst; [|done].
  destruct (Py.final _) as [last_tag|] eqn:Hfinal; [|done].
  simpl in Hmk. injection Hmk as <-.
  exists (timestamp_tags_window timestamps (k * stride)), head_tag, last_tag.
  rewrite window_first in Hfirst. rewrite window_final in Hfinal by done.
  split_and!; try done.
  - by apply windows_lookup.
  - rewrite <- Hfirst, window_lookup; [f_equal; lia|].
    unfold context_window_size. lia.
  - rewrite <- Hfinal. exact (window_final _ _ Hlt).
Qed.

(** C5: every index of the token sequence lies in a window of the loop,
    and that window is the content of a document, so every token appears
    in at least one chunk; this holds for the sequence [index_lecture]
    builds from a block's tags; a single-token sequence yields exactly one
    chunk, made of that token. *)
Theorem every_token_in_a_chunk source :
  (∀ (timestamps : list Tag) j t,
     timestamps !! j = Some t →
     ∃ k window docs doc,
       windows timestamps !! k = Some window ∧
       window !! (j - k * stride) = Some t ∧
       documents source timestamps = Some docs ∧
       docs !! k = Some doc ∧
       page_content doc = Py.join " " (name <$> window)) ∧
  (∀ tags t,
     t ∈ tags → kind t = "timestamp"%string →
     ∃ window, window ∈ windows (timestamps_of tags) ∧ t ∈ window) ∧
  (∀ t,
     windows [t] = [[t]] ∧
     documents source [t] =
     Some [mkDocument (name t)
             (mkMetadata (start_time (value t)) (end_time (value t))
                (start_idx t) (end_idx t) source)]).
Proof.
  split_and!.
  - intros timestamps j t Hj.
    destruct (index_covered _ _ _ Hj) as [Hw Ht].
    destruct (documents_total source timestamps) as [docs Hdocs].
    pose proof (documents_length _ _ _ Hdocs) as Hlen.
    destruct (lookup_lt_is_Some_2 docs (j `div` stride)) as [doc Hdoc].
    { rewrite Hlen. eapply lookup_lt_Some, Hw. }
    exists (j `div` stride),
      (timestamp_tags_window timestamps (j `div` stride * stride)), docs, doc.
    split_and!; try done.
    destruct (documents_lookup _ _ _ _ _ Hdocs Hdoc) as [_ Hmk].
    unfold make_document in Hmk.
    destruct (Py.first _); [|done]. destruct (Py.final _); [|done].
    simpl in Hmk. by injection Hmk as <-.
  - intros tags t Hin Hkind.
    assert (t ∈ timestamps_of tags) as Hts.
    { unfold timestamps_of. rewrite sorted_Permutation.
      by apply list_elem_of_filter. }
    apply list_elem_of_lookup in Hts as [j Hj].
    destruct (index_covered _ _ _ Hj) as [Hw Ht].
    eexists. split; eapply list_elem_of_lookup_2; eassumption.
  - intros t. split; reflexivity.
Qed.

(** C6: on an empty token sequence the loop yields the empty list of
    documents, not an exception; the empty sequence is the only one
    with no document. *)
Theorem empty_sequence_no_documents source (timestamps : list Tag) :
  documents source [] = Some [] ∧
  (documents source timestamps = Some [] ↔ timestamps = []).
Proof.
  split; [reflexivity|]. split.
  - intros Hd. destruct timestamps as [|t timestamps]; [done|].
    apply documents_length in Hd. simpl in Hd. symmetry in Hd.
    apply length_zero_iff_nil in Hd.
    assert (windows (t :: timestamps) !! 0 = None) as Hnone by (by rewrite Hd).
    assert (is_Some (windows (t :: timestamps) !! 0)) as [w Hw].
    { eexists. apply windows_lookup. split; [simpl; lia|done]. }
    congruence.
  - intros ->. reflexivity.
Qed.

End ChunkerContract.

Section ChunkerExamples.
Import Chunker Examples.

(** A witness for C1: a transcript of 301 tokens, windows 0 and 1. *)
Lemma consecutive_windows_overlap_witness :
  windows (transcript 301) !! 0
  = Some (timestamp_tags_window (transcript 301) 0) ∧
  windows (transcript 301) !! 1
  = Some (timestamp_tags_window (transcript 301) 150) ∧
  length (timestamp_tags_window (transcript 301) 0) = context_window_size ∧
  Py.suffix (timestamp_tags_window (transcript 301) 0) context_window_overlap
  = Py.prefix (timestamp_tags_window (transcript 301) 150)
      context_window_overlap.
Proof.
  assert (windows (transcript 301) !! 0
          = Some (timestamp_tags_window (transcript 301) 0)) as H0
    by (vm_compute; reflexivity).
  assert (windows (transcript 301) !! 1
          = Some (timestamp_tags_window (transcript 301) 150)) as H1
    by (vm_compute; reflexivity).
  assert (length (timestamp_tags_window (transcript 301) 0)
          = context_window_size) as Hfull
    by (vm_compute; reflexivity).
  split_and!; try assumption.
  exact (proj2 (consecutive_windows_overlap _ 0 _ _ H0 H1) Hfull).
Defined.

(** A counterexample to C1 as stated: a transcript of 301 tokens has the windows
    [0,200), [150,301) and [300,301). The last 50 tokens of window 1 are
    tokens 251..300, while window 2 holds token 300 only. *)
Lemma short_last_window_breaks_overlap :
  200 < length (transcript 301) ∧
  ∃ w1 w2,
    windows (transcript 301) !! 1 = Some w1 ∧
    windows (transcript 301) !! 2 = Some w2 ∧
    length w1 = 151 ∧ w2 = [token 300] ∧
    Py.suffix w1 context_window_overlap
    ≠ Py.prefix w2 context_window_overlap.
Proof.
  split.
  - unfold transcript. rewrite length_fmap, length_seq. lia.
  - exists (timestamp_tags_window (transcript 301) 150),
      (timestamp_tags_window (transcript 301) 300).
    split_and!; try (vm_compute; reflexivity).
    intros Heq. apply (f_equal length) in Heq.
    vm_compute in Heq. discriminate.
Qed.

(** A witness for C5: token 170 of a transcript of 301 tokens lies in window 1,
    at offset 20. *)
Lemma every_token_in_a_chunk_witness :
  transcript 301 !! 170 = Some (token 170) ∧
  ∃ k window docs doc,
    windows (transcript 301) !! k = Some window ∧
    window !! (170 - k * stride) = Some (token 170) ∧
    documents "https://youtu.be/abc" (transcript 301) = Some docs ∧
    docs !! k = Some doc ∧
    page_content doc = Py.join " " (name <$> window).
Proof.
  assert (transcript 301 !! 170 = Some (token 170)) as H
    by (vm_compute; reflexivity).
  split; [exact H|].
  exact (proj1 (every_token_in_a_chunk "https://youtu.be/abc") _ _ _ H).
Defined.

End ChunkerExamples.

(** ** Running the Steamship calls *)

Section Running.
Import Steamship Ingestion Effects.

Lemma bind_run {A B} (m : M A) (f : A → M B) w :
  (m ≫= f) w =
  match m w with Ok a w' => f a w' | Raise e w' => Raise e w' end.
Proof. reflexivity. Qed.

Lemma Task_get_run t w :
  Task_get t w =
  match tasks w !! t with
  | Some fid => Ok (mkTask t fid) w
  | None => Raise SteamshipError w
  end.
Proof. unfold Task_get. rewrite bind_run. simpl. by destruct (tasks w !! t). Qed.

Lemma File_get_run fid w :
  File_get fid w =
  match files w !! fid with
  | Some d => Ok (snapshot fid d) w
  | None => Raise SteamshipError w
  end.
Proof. unfold File_get. rewrite bind_run. simpl. by destruct (files w !! fid). Qed.

Lemma Tag_create_run fid kind name w :
  Tag_create fid kind name w =
  match files w !! fid with
  | Some d => Ok (new_tag (next_id w) fid kind name)
                (tag_created fid kind name d w)
  | None => Raise SteamshipError w
  end.
Proof.
  unfold Tag_create. rewrite bind_run. simpl.
  destruct (files w !! fid) as [d|]; reflexivity.
Qed.

Lemma set_files_same w : set_files (files w) w = w.
Proof. by destruct w. Qed.

Lemma purge_nil d : purge [] d = d.
Proof.
  destruct d as [tags bs]. unfold purge. simpl. f_equal.
  induction tags as [|t tags IH]; [done|].
  rewrite filter_cons_True by set_solver. by rewrite IH.
Qed.

Lemma remove_tag_purge i ids d :
  purge ids (remove_tag i d) = purge (i :: ids) d.
Proof.
  destruct d as [tags bs]. unfold purge, remove_tag. simpl. f_equal.
  induction tags as [|t tags IH]; [done|].
  destruct (decide (tag_id t = i)) as [Heq|Hne].
  - rewrite (filter_cons_False _ t) by naive_solver.
    rewrite (filter_cons_False _ t) by set_solver. done.
  - rewrite (filter_cons_True (λ t, tag_id t ≠ i)) by done.
    destruct (decide (tag_id t ∈ ids)).
    + rewrite !filter_cons_False by set_solver. done.
    + rewrite (filter_cons_True (λ t, tag_id t ∉ ids)) by done.
      rewrite (filter_cons_True (λ t, tag_id t ∉ i :: ids))
        by (by apply not_elem_of_cons).
      by rewrite IH.
Qed.

Lemma remove_tag_absent i d : ¬ has_tag i d → remove_tag i d = d.
Proof.
  destruct d as [tags bs]. unfold has_tag, remove_tag. simpl.
  intros Hno. f_equal. induction tags as [|t tags IH]; [done|].
  rewrite filter_cons_True.
  - rewrite IH; [done|]. intros H. apply Hno. by right.
  - intros Heq. apply Hno. by left.
Qed.

Lemma remove_tag_nowhere i (m : gmap nat FileData) :
  ¬ map_Exists (λ _ d, has_tag i d) m → remove_tag i <$> m = m.
Proof.
  intros Hno. apply map_eq. intros k. rewrite lookup_fmap.
  destruct (m !! k) as [d|] eqn:E; [|done]. simpl. f_equal.
  apply remove_tag_absent. intros Hd. apply Hno. by exists k, d.
Qed.

(** One round of the deletion loop: the exception is swallowed, and the
    tag is gone from the workspace unless the service failed. *)
Lemma delete_attempt_run t w :
  try_except_SteamshipError (Tag_delete t) w =
  Ok () (if delete_fails (env w) (tag_id t) then w
         else set_files (remove_tag (tag_id t) <$> files w) w).
Proof.
  unfold try_except_SteamshipError, Tag_delete.
  destruct (delete_fails (env w) (tag_id t)); [done|].
  case_decide as Hex; [done|].
  by rewrite remove_tag_nowhere, set_files_same.
Qed.

Lemma deletion_loop_run l w :
  for_ l (λ status_tag, try_except_SteamshipError (Tag_delete status_tag)) w
  = Ok () (set_files (purge (deleted_ids (env w) l) <$> files w) w).
Proof.
  revert w. induction l as [|t l IH]; intros w.
  - simpl. unfold deleted_ids. simpl. f_equal.
    rewrite <- (set_files_same w) at 1. f_equal.
    apply map_eq. intros k. rewrite lookup_fmap.
    destruct (files w !! k); simpl; by rewrite ?purge_nil.
  - cbn [for_]. rewrite bind_run, delete_attempt_run, IH.
    unfold deleted_ids.
    destruct (delete_fails (env w) (tag_id t)) eqn:Hf.
    + by rewrite filter_cons_False by (by rewrite Hf).
    + rewrite filter_cons_True by done. destruct w; simpl in *. f_equal.
      unfold set_files. simpl. f_equal.
      rewrite <- map_fmap_compose. apply map_fmap_ext.
      intros k d _. simpl. apply remove_tag_purge.
Qed.

Lemma update_file_status_run file status w :
  _update_file_status file status w =
  match files w !! file_ident file with
  | Some d => Ok () (status_updated (file_ident file) status d w)
  | None => Raise SteamshipError w
  end.
Proof.
  unfold _update_file_status, File_refresh.
  rewrite bind_run, File_get_run.
  destruct (files w !! file_ident file) as [d|] eqn:Hd; [|done].
  rewrite bind_run. simpl file_tags. simpl file_ident.
  rewrite deletion_loop_run, bind_run, Tag_create_run.
  simpl. rewrite lookup_fmap, Hd. reflexivity.
Qed.

End Running.

(** ** Status markers *)

Section StatusMarkers.
Import Steamship Ingestion Effects.

Lemma filter_ext_elem {A} (P Q : A → Prop)
    `{!∀ x, Decision (P x), !∀ x, Decision (Q x)} (l : list A) :
  (∀ x, x ∈ l → P x ↔ Q x) → filter P l = filter Q l.
Proof.
  induction l as [|x l IH]; intros Hext; [done|].
  assert (filter P l = filter Q l) as Hl.
  { apply IH. intros y Hy. apply Hext. by right. }
  destruct (decide (P x)) as [HP|HP].
  - rewrite !filter_cons_True; [by rewrite Hl| |done].
    apply Hext; [by left|done].
  - rewrite !filter_cons_False; [done| |done].
    intros HQ. apply HP, Hext; [by left|done].
Qed.

(** A status tag survives the deletion loop exactly when its deletion
    failed. *)
Lemma surviving_status_tags e (tags : list Tag) :
  filter is_status
    (filter (λ t, tag_id t ∉ deleted_ids e (filter is_status tags)) tags)
  = filter (λ s, delete_fails e (tag_id s) = true) (filter is_status tags).
Proof.
  rewrite !list_filter_filter. apply filter_ext_elem.
  intros t Ht. unfold deleted_ids. split.
  - intros [Hst Hnot]. split; [|done].
    destruct (delete_fails e (tag_id t)) eqn:Hf; [done|].
    exfalso. apply Hnot. apply list_elem_of_fmap. exists t. split; [done|].
    apply list_elem_of_filter. split; [done|].
    by apply list_elem_of_filter.
  - intros [Hf Hst]. split; [done|].
    intros (s & Hid & Hs)%list_elem_of_fmap.
    apply list_elem_of_filter in Hs as [Hsf _]. congruence.
Qed.

Lemma status_markers_updated fid status d w :
  files w !! fid = Some d →
  status_markers fid (status_updated fid status d w) =
  filter (λ s, delete_fails (env w) (tag_id s) = true) (status_markers fid w)
  ++ [new_tag (next_id w) fid "status" status].
Proof.
  intros Hd. unfold status_markers, status_updated, tag_created. simpl.
  rewrite lookup_insert_eq, Hd. simpl.
  rewrite filter_app, surviving_status_tags. f_equal.
Qed.

End StatusMarkers.

Section StatusUpdate.
Import Steamship Ingestion Effects.

(** C7 (as amended): [_update_file_status] attempts to delete every status
    marker of the record before it creates the new one; a [SteamshipError]
    of a deletion is swallowed and the new marker is written all the same.
    After the update the record carries the old status markers whose
    deletion failed, followed by the new one; it carries exactly one
    status marker when no deletion failed. *)
Theorem update_file_status_markers file status w d :
  files w !! file_ident file = Some d →
  ∃ w',
    _update_file_status file status w = Ok () w' ∧
    status_markers (file_ident file) w' =
      filter (λ s, delete_fails (env w) (tag_id s) = true)
        (status_markers (file_ident file) w)
      ++ [new_tag (next_id w) (file_ident file) "status" status] ∧
    ((∀ s, s ∈ status_markers (file_ident file) w →
           delete_fails (env w) (tag_id s) = false) →
     status_markers (file_ident file) w'
     = [new_tag (next_id w) (file_ident file) "status" status]).
Proof.
  intros Hd. rewrite update_file_status_run, Hd.
  eexists. split; [reflexivity|].
  rewrite (status_markers_updated _ _ _ _ Hd). split; [done|].
  intros Hok.
  assert (filter (λ s, delete_fails (env w) (tag_id s) = true)
            (status_markers (file_ident file) w) = []) as ->; [|done].
  induction (status_markers (file_ident file) w) as [|s l IH]; [done|].
  rewrite filter_cons_False.
  - apply IH. intros s' Hs'. apply Hok. by right.
  - rewrite Hok; [done|by left].
Qed.

End StatusUpdate.

Section StatusUpdateExamples.
Import Steamship Ingestion Effects Examples.

(** A witness for C7: the lecture file with the marker "Transcribing" and a
    reliable tag service ends with the single marker "Indexing". *)
Lemma update_file_status_markers_witness :
  files (lecture_world reliable) !! 7 =
    Some (mkFileData [source_tag; transcribing_tag] []) ∧
  ∃ w',
    _update_file_status lecture_file "Indexing" (lecture_world reliable)
    = Ok () w' ∧
    status_markers 7 w' = [new_tag 8 7 "status" "Indexing"].
Proof.
  assert (files (lecture_world reliable) !! file_ident lecture_file =
          Some (mkFileData [source_tag; transcribing_tag] [])) as Hd
    by reflexivity.
  split; [exact Hd|].
  destruct (update_file_status_markers lecture_file "Indexing" _ _ Hd)
    as (w' & Hrun & _ & Hone).
  exists w'. split; [exact Hrun|].
  apply Hone. intros s _. reflexivity.
Defined.

(** A counterexample to C7 as stated: when the deletion of the old marker fails, the
    update completes and the record carries two status markers. *)
Lemma failed_deletion_leaves_two_markers :
  ∃ w',
    _update_file_status lecture_file "Indexing"
      (lecture_world (deletion_of_fails 1)) = Ok () w' ∧
    status_markers 7 w'
    = [transcribing_tag; new_tag 8 7 "status" "Indexing"] ∧
    length (status_markers 7 w') ≠ 1.
Proof.
  eexists. split; [vm_compute; reflexivity|].
  split; [vm_compute; reflexivity|].
  vm_compute. discriminate.
Qed.

End StatusUpdateExamples.

(** ** Running the endpoints of the pipeline *)

Section Endpoints.
Import Steamship Ingestion Effects.

Lemma blockify_run file w :
  blockify file w = Ok (next_id w) (blockify_started (file_ident file) w).
Proof. reflexivity. Qed.

Lemma invoke_later_run method t source waits w :
  invoke_later method t source waits w =
  Ok (next_id w) (later_scheduled (mkInvocation method t source waits) w).
Proof. reflexivity. Qed.

Lemma File_create_with_plugin_run url w :
  File_create_with_plugin url w = Ok (next_id w) (import_started url w).
Proof. reflexivity. Qed.

Lemma add_lecture_run url w :
  add_lecture url w =
  Ok true
    (later_scheduled
       (mkInvocation "transcribe_lecture" (next_id w) url [next_id w])
       (import_started url w)).
Proof. reflexivity. Qed.

Lemma YouTube_title_run source w :
  YouTube_title source w =
  match youtube_title (env w) source with
  | Some title => Ok title w
  | None => Raise PytubeError w
  end.
Proof.
  unfold YouTube_title. rewrite bind_run. unfold get.
  by destruct (youtube_title (env w) source).
Qed.

Lemma files_tag_created fid kind name d w :
  files (tag_created fid kind name d w) !! fid
  = Some (attach (new_tag (next_id w) fid kind name) d).
Proof. unfold tag_created. simpl. apply lookup_insert_eq. Qed.

Lemma files_status_updated fid status d w :
  files (status_updated fid status d w) !! fid
  = Some (status_data fid status d w).
Proof. unfold status_updated. by rewrite files_tag_created. Qed.

Lemma index_lecture_run t source w :
  index_lecture t source w =
  match tasks w !! t with
  | None => Raise SteamshipError w
  | Some fid =>
    match files w !! fid with
    | None => Raise SteamshipError w
    | Some d =>
      match stored_blocks d !! 0 with
      | None => Raise IndexError (status_updated fid "Indexing" d w)
      | Some block =>
        match Chunker.documents source
                (Chunker.timestamps_of (block_tags block)) with
        | None => Raise IndexError (status_updated fid "Indexing" d w)
        | Some docs =>
          if add_documents_fails (env w) docs
          then Raise SteamshipError (status_updated fid "Indexing" d w)
          else Ok true (indexed fid docs d w)
        end
      end
    end
  end.
Proof.
  unfold index_lecture. rewrite bind_run, Task_get_run.
  destruct (tasks w !! t) as [fid|]; [|done].
  rewrite bind_run, File_get_run. simpl output_file_id.
  destruct (files w !! fid) as [d|] eqn:Hd; [|done].
  rewrite bind_run, update_file_status_run. simpl file_ident. rewrite Hd.
  rewrite bind_run. simpl blocks.
  destruct (stored_blocks d !! 0) as [block|]; [|done].
  simpl from_option at 1. unfold mret at 1, M_ret at 1.
  rewrite bind_run.
  destruct (Chunker.documents _ _) as [docs|]; [|done].
  simpl from_option at 1. unfold mret at 1, M_ret at 1.
  rewrite bind_run. unfold add_documents. simpl env.
  destruct (add_documents_fails (env w) docs); [done|].
  rewrite bind_run, update_file_status_run. simpl file_ident.
  assert (files (set_index
                   (index (status_updated fid "Indexing" d w) ++ docs)
                   (status_updated fid "Indexing" d w)) !! fid
          = Some (status_data fid "Indexing" d w)) as ->.
  { apply files_status_updated. }
  reflexivity.
Qed.

Lemma transcribe_lecture_run t source w :
  transcribe_lecture t source w =
  match tasks w !! t with
  | None => Raise SteamshipError w
  | Some fid =>
    match files w !! fid with
    | None => Raise SteamshipError w
    | Some d =>
      match youtube_title (env w) source with
      | None => Raise PytubeError (tag_created fid "source" source d w)
      | Some title =>
          Ok (S (S (S (S (next_id w))))) (transcribing t fid source title d w)
      end
    end
  end.
Proof.
  unfold transcribe_lecture. rewrite bind_run, Task_get_run.
  destruct (tasks w !! t) as [fid|]; [|done].
  rewrite bind_run, File_get_run. simpl output_file_id.
  destruct (files w !! fid) as [d|] eqn:Hd; [|done].
  rewrite bind_run, Tag_create_run. simpl file_ident. rewrite Hd.
  rewrite bind_run, YouTube_title_run.
  change (env (tag_created fid "source" source d w)) with (env w).
  destruct (youtube_title (env w) source) as [title|]; [|done].
  rewrite bind_run, Tag_create_run, files_tag_created.
  rewrite bind_run, update_file_status_run. simpl file_ident.
  rewrite files_tag_created.
  rewrite bind_run, blockify_run, invoke_later_run.
  reflexivity.
Qed.

End Endpoints.

(** ** Status histories *)

Section Histories.
Import Steamship Ingestion Effects.
Implicit Types (w : World) (f fid : nat) (history ext : list string).

Lemma history_of_app f (l1 l2 : list Tag) :
  history_of f (l1 ++ l2) = history_of f l1 ++ history_of f l2.
Proof. unfold history_of. by rewrite filter_app, fmap_app. Qed.

Lemma history_of_new_tag f i fid kind name :
  history_of f [new_tag i fid kind name] =
  if decide (kind = "status"%string ∧ fid = f) then [name] else [].
Proof.
  unfold history_of. rewrite filter_cons, filter_nil.
  unfold is_status. simpl. by repeat case_decide.
Qed.

Lemma history_tag_created f fid kind name d w :
  status_history f (tag_created fid kind name d w) =
  status_history f w ++
  (if decide (kind = "status"%string ∧ fid = f) then [name] else []).
Proof.
  unfold status_history, tag_created. simpl.
  by rewrite history_of_app, history_of_new_tag.
Qed.

Lemma history_status_updated f fid status d w :
  status_history f (status_updated fid status d w) =
  status_history f w ++ (if decide (fid = f) then [status] else []).
Proof.
  unfold status_updated. rewrite history_tag_created.
  unfold status_history, status_purged. simpl.
  f_equal. destruct (decide (fid = f)).
  - by rewrite decide_True.
  - by rewrite decide_False by (by intros [_ ?]).
Qed.

Lemma history_indexed f fid docs d w :
  status_history f (indexed fid docs d w) =
  status_history f w ++
  (if decide (fid = f) then ["Indexing"; "Indexed"]%string else []).
Proof.
  unfold indexed. rewrite history_status_updated.
  change (status_history f (set_index ?i ?w')) with (status_history f w').
  rewrite history_status_updated, <- app_assoc.
  by case_decide.
Qed.

Lemma history_transcribing f t fid source title d w :
  status_history f (transcribing t fid source title d w) =
  status_history f w ++
  (if decide (fid = f) then ["Transcribing"%string] else []).
Proof.
  unfold transcribing.
  change (status_history f (later_scheduled ?i (blockify_started ?g ?w')))
    with (status_history f w').
  rewrite history_status_updated, !history_tag_created.
  rewrite !decide_False by (by intros [? _]).
  by rewrite !app_nil_r.
Qed.

Lemma index_lecture_history f t source w :
  ∃ ext,
    status_history f (world_of (index_lecture t source w))
    = status_history f w ++ ext ∧ one_call ext.
Proof.
  rewrite index_lecture_run.
  assert (∃ ext, status_history f w = status_history f w ++ ext
                 ∧ one_call ext) as Hsame.
  { exists []. split; [by rewrite app_nil_r|by left]. }
  assert (∀ fid d, ∃ ext,
            status_history f (status_updated fid "Indexing" d w)
            = status_history f w ++ ext ∧ one_call ext) as Hupd.
  { intros fid d. eexists. split; [apply history_status_updated|].
    case_decide; [right; right; by left|by left]. }
  destruct (tasks w !! t) as [fid|]; [|done].
  destruct (files w !! fid) as [d|]; [|done].
  destruct (stored_blocks d !! 0) as [block|]; [|apply Hupd].
  destruct (Chunker.documents _ _) as [docs|]; [|apply Hupd].
  destruct (add_documents_fails _ _); [apply Hupd|].
  simpl. eexists. split; [apply history_indexed|].
  case_decide; [by do 3 right|by left].
Qed.

Lemma transcribe_lecture_history f t source w :
  ∃ ext,
    status_history f (world_of (transcribe_lecture t source w))
    = status_history f w ++ ext ∧ one_call ext.
Proof.
  rewrite transcribe_lecture_run.
  assert (∃ ext, status_history f w = status_history f w ++ ext
                 ∧ one_call ext) as Hsame.
  { exists []. split; [by rewrite app_nil_r|by left]. }
  destruct (tasks w !! t) as [fid|]; [|done].
  destruct (files w !! fid) as [d|]; [|done].
  destruct (youtube_title _ _) as [title|]; simpl.
  - eexists. split; [apply history_transcribing|].
    case_decide; [right; by left|by left].
  - exists []. rewrite history_tag_created.
    rewrite decide_False by (by intros [? _]). split; [done|by left].
Qed.

(** Every step of the system adds to a file's history what one endpoint
    call can add. *)
Lemma pipeline_step_history f w w' :
  pipeline_step w w' →
  ∃ ext, status_history f w' = status_history f w ++ ext ∧ one_call ext.
Proof.
  intros Hstep.
  assert (∃ ext, status_history f w = status_history f w ++ ext
                 ∧ one_call ext) as Hsame.
  { exists []. split; [by rewrite app_nil_r|by left]. }
  destruct Hstep as [w url|w inv Hin Hwait|w t url Hin|w t fid tags Hin].
  - rewrite add_lecture_run. exact Hsame.
  - set (w0 := set_scheduled _ w).
    change (status_history f w) with (status_history f w0).
    unfold dispatch. repeat case_decide.
    + rewrite bind_run.
      destruct (index_lecture_history f (arg_task_id inv) (arg_source inv) w0)
        as (ext & Hext & Hone).
      exists ext. split; [|done]. rewrite <- Hext.
      by destruct (index_lecture _ _ w0).
    + rewrite bind_run.
      destruct (transcribe_lecture_history f (arg_task_id inv)
                  (arg_source inv) w0) as (ext & Hext & Hone).
      exists ext. split; [|done]. rewrite <- Hext.
      by destruct (transcribe_lecture _ _ w0).
    + simpl. exists []. split; [by rewrite app_nil_r|by left].
  - exact Hsame.
  - exact Hsame.
Qed.

(** Every step of the system adds to a file's history what one endpoint
    call can add. *)
Lemma step_history f w w' :
  step w w' →
  ∃ ext, status_history f w' = status_history f w ++ ext ∧ one_call ext.
Proof.
  intros [w1 w2 Hstep|w1 t source|w1 t source].
  - by apply pipeline_step_history.
  - apply transcribe_lecture_history.
  - apply index_lecture_history.
Qed.

Lemma indexed_after_indexing_app history ext :
  indexed_after_indexing history → one_call ext →
  indexed_after_indexing (history ++ ext).
Proof.
  intros Hinv Hone i Hi.
  destruct (decide (i < length history)) as [Hlt|Hge].
  - rewrite lookup_app_l in Hi by done.
    destruct (Hinv i Hi) as (j & -> & Hj). exists j. split; [done|].
    rewrite lookup_app_l by lia. done.
  - rewrite lookup_app_r in Hi by lia.
    destruct Hone as [-> | [-> | [-> | ->]]].
    + done.
    + destruct (i - length history) as [|[|n]]; done.
    + destruct (i - length history) as [|[|n]]; done.
    + destruct (i - length history) as [|[|n]] eqn:E; try done.
      exists (length history). split; [lia|].
      rewrite lookup_app_r by lia. by rewrite Nat.sub_diag.
Qed.

Lemma reachable_indexed_after_indexing w0 w :
  rtc step w0 w →
  (∀ f, indexed_after_indexing (status_history f w0)) →
  ∀ f, indexed_after_indexing (status_history f w).
Proof.
  intros Hreach Hinit. revert w Hreach.
  apply (rtc_ind_r (λ w, ∀ f, indexed_after_indexing (status_history f w)));
    [done|].
  intros w w' _ Hstep IH f.
  destruct (step_history f _ _ Hstep) as (ext & -> & Hone).
  by apply indexed_after_indexing_app.
Qed.

End Histories.

(** ** The order of the status markers *)

Section StatusOrder.
Import Steamship Ingestion Effects.

(** The two ends of a call of [index_lecture]: a call that returns has
    written "Indexing" and "Indexed" and has inserted its documents; a
    call that raises has written "Indexing" at most, and no "Indexed". *)
Lemma index_lecture_order w t source :
  match index_lecture t source w with
  | Ok _ w' =>
      ∃ fid docs,
        tasks w !! t = Some fid ∧
        index w' = index w ++ docs ∧
        status_history fid w'
        = status_history fid w ++ ["Indexing"; "Indexed"]%string
  | Raise _ w' =>
      ∀ f, ∃ ext,
        status_history f w' = status_history f w ++ ext ∧
        (ext = [] ∨ ext = ["Indexing"%string])
  end.
Proof.
  rewrite index_lecture_run.
  assert (∀ f, ∃ ext, status_history f w = status_history f w ++ ext
                      ∧ (ext = [] ∨ ext = ["Indexing"%string])) as Hsame.
  { intros f. exists []. split; [by rewrite app_nil_r|by left]. }
  assert (∀ fid d f, ∃ ext,
            status_history f (status_updated fid "Indexing" d w)
            = status_history f w ++ ext
            ∧ (ext = [] ∨ ext = ["Indexing"%string])) as Hupd.
  { intros fid d f. eexists. split; [apply history_status_updated|].
    case_decide; [by right|by left]. }
  destruct (tasks w !! t) as [fid|]; [|done].
  destruct (files w !! fid) as [d|]; [|done].
  destruct (stored_blocks d !! 0) as [block|]; [|apply Hupd].
  destruct (Chunker.documents _ _) as [docs|]; [|apply Hupd].
  destruct (add_documents_fails _ _); [apply Hupd|].
  exists fid, docs. split_and!; [done|done|].
  rewrite history_indexed. by rewrite decide_True.
Qed.

(** The state after line 104: when the status update of [index_lecture]
    completes, it has written "Indexing" for the file and has left the
    vector index alone. *)
Lemma indexing_marked w fid d w1 :
  files w !! fid = Some d →
  _update_file_status (snapshot fid d) "Indexing" w = Ok () w1 →
  w1 = status_updated fid "Indexing" d w ∧
  status_history fid w1 = status_history fid w ++ ["Indexing"%string] ∧
  index w1 = index w.
Proof.
  intros Hd. rewrite update_file_status_run. simpl file_ident. rewrite Hd.
  intros [= <-]. split; [done|]. split; [|done].
  by rewrite history_status_updated, decide_True.
Qed.

(** The stages of [index_lecture] on a file with a block, one after the
    other: the status update to "Indexing" (line 104), the insertion of
    the documents (line 130), the status update to "Indexed" (line 131).
    If the insertion raises, the call raises there, with "Indexing"
    written and "Indexed" not; when the documents are in, "Indexed" is
    not written yet. *)
Lemma index_lecture_stages w t source fid d block docs w1 :
  tasks w !! t = Some fid →
  files w !! fid = Some d →
  stored_blocks d !! 0 = Some block →
  Chunker.documents source (Chunker.timestamps_of (block_tags block))
  = Some docs →
  _update_file_status (snapshot fid d) "Indexing" w = Ok () w1 →
  status_history fid w1 = status_history fid w ++ ["Indexing"%string] ∧
  index w1 = index w ∧
  (∀ e w', add_documents docs w1 = Raise e w' →
     index_lecture t source w = Raise e w' ∧
     status_history fid w' = status_history fid w ++ ["Indexing"%string]) ∧
  (∀ w2, add_documents docs w1 = Ok () w2 →
     index w2 = index w ++ docs ∧
     status_history fid w2 = status_history fid w ++ ["Indexing"%string] ∧
     ∀ w3, _update_file_status (snapshot fid d) "Indexed" w2 = Ok () w3 →
       index_lecture t source w = Ok true w3 ∧
       index w3 = index w ++ docs ∧
       status_history fid w3
       = status_history fid w ++ ["Indexing"; "Indexed"]%string).
Proof.
  intros Ht Hd Hblock Hdocs Hupd.
  destruct (indexing_marked w fid d w1 Hd Hupd) as (-> & Hhist & Hidx).
  split; [done|]. split; [done|].
  rewrite index_lecture_run, Ht, Hd, Hblock, Hdocs.
  unfold add_documents.
  change (env (status_updated fid "Indexing" d w)) with (env w).
  destruct (add_documents_fails (env w) docs); split.
  - by intros e w' [= <- <-].
  - intros w2 [=].
  - intros e w' [=].
  - intros w2 [= <-]. split; [done|]. split; [exact Hhist|].
    intros w3. rewrite update_file_status_run. simpl file_ident.
    change (files (set_index ?i ?w')) with (files w').
    rewrite files_status_updated. intros [= <-].
    split; [done|]. split; [done|].
    change (status_history fid (status_updated fid "Indexed" ?d' ?w'))
      with (status_history fid (indexed fid docs d w)).
    by rewrite history_indexed, decide_True.
Qed.

(** One run of the pipeline for a lecture: [transcribe_lecture] writes
    "Transcribing" and schedules [index_lecture] behind the transcription
    task; once the transcription has completed, the scheduled call writes
    "Indexing", inserts the documents and writes "Indexed". *)
Lemma pipeline_run w t source fid d title tags :
  tasks w !! t = Some fid →
  files w !! fid = Some d →
  youtube_title (env w) source = Some title →
  (∀ docs, add_documents_fails (env w) docs = false) →
  let transcription := S (S (S (next_id w))) in
  let inv := mkInvocation "index_lecture" t source [transcription] in
  ∃ w1,
    transcribe_lecture t source w = Ok (S transcription) w1 ∧
    scheduled w1 = scheduled w ++ [inv] ∧
    blockify_tasks w1 = blockify_tasks w ++ [(transcription, fid)] ∧
    status_history fid w1
    = status_history fid w ++ ["Transcribing"%string] ∧
    let w2 := blockify_done transcription fid tags w1 in
    Forall (λ t', t' ∈ completed w2) (wait_on_tasks inv) ∧
    ∃ w3 docs,
      dispatch inv
        (set_scheduled (filter (λ i, i ≠ inv) (scheduled w2)) w2)
      = Ok () w3 ∧
      Chunker.documents source (Chunker.timestamps_of tags) = Some docs ∧
      index w3 = index w ++ docs ∧
      status_history fid w3
      = status_history fid w
        ++ ["Transcribing"; "Indexing"; "Indexed"]%string.
Proof.
  intros Ht Hd Htitle Hidx transcription inv.
  rewrite transcribe_lecture_run, Ht, Hd, Htitle.
  eexists. split; [reflexivity|].
  split; [reflexivity|]. split; [reflexivity|].
  split; [by rewrite history_transcribing, decide_True|].
  intros w2. split.
  { apply Forall_singleton. subst w2. simpl. set_solver. }
  set (w2' := set_scheduled _ w2).
  destruct (documents_total source (Chunker.timestamps_of tags))
    as [docs Hdocs].
  unfold dispatch. rewrite decide_True by done.
  rewrite bind_run, index_lecture_run.
  change (arg_task_id inv) with t. change (arg_source inv) with source.
  assert (tasks w2' !! t = Some fid) as -> by exact Ht.
  assert (∃ d', files w2' !! fid = Some d'
                ∧ stored_blocks d' = [mkBlock tags]) as (d' & -> & Hb).
  { subst w2' w2.
    change (files (set_scheduled ?l (blockify_done ?tt ?ff ?tg ?w1)))
      with (alter (λ d, mkFileData (stored_tags d) [mkBlock tg]) ff
              (files w1)).
    unfold transcribing.
    change (files (later_scheduled ?i (blockify_started ?ff ?w')))
      with (files w').
    rewrite lookup_alter, decide_True by done.
    rewrite files_status_updated. simpl. eauto. }
  rewrite Hb. change ([mkBlock tags] !! 0) with (Some (mkBlock tags)).
  cbn [block_tags]. rewrite Hdocs.
  change (env w2') with (env w). rewrite Hidx.
  exists (indexed fid docs d' w2'), docs.
  split; [reflexivity|]. split; [done|]. split; [reflexivity|].
  rewrite history_indexed, decide_True by done.
  change (status_history fid w2')
    with (status_history fid (transcribing t fid source title d w)).
  rewrite history_transcribing, decide_True by done.
  by rewrite <- app_assoc.
Qed.

End StatusOrder.

(** ** What the endpoints leave alone *)

Section Frames.
Import Steamship Ingestion Effects.
Implicit Types (w : World) (f fid : nat).

Lemma frame_refl w : frame w w.
Proof. split; auto. intros f d tag Hd Htag. left. eauto. Qed.

Lemma frame_trans w1 w2 w3 : frame w1 w2 → frame w2 w3 → frame w1 w3.
Proof.
  intros [Ht1 Hi1 Hn1 Hf1 Hm1 Hg1 Hs1] [Ht2 Hi2 Hn2 Hf2 Hm2 Hg2 Hs2]. split.
  - congruence.
  - congruence.
  - lia.
  - intros f. by rewrite Hf2, Hf1.
  - auto.
  - intros tag Htag. destruct (Hg2 tag Htag) as [Hin|Hfile].
    + by apply Hg1.
    + right. by apply Hf1.
  - intros f d3 tag Hd3 Htag.
    destruct (Hs2 f d3 tag Hd3 Htag) as [(d2 & Hd2 & Hin2)|Hnew]; [|by right].
    destruct (Hs1 f d2 tag Hd2 Hin2) as [Hold|[Hc Hf]]; [by left|].
    right. split; [by apply Hm2|done].
Qed.

Lemma frame_tag_created fid kind name d w :
  files w !! fid = Some d → frame w (tag_created fid kind name d w).
Proof.
  intros Hfid. unfold tag_created. split; simpl; [done|done|lia| | | |].
  - intros f. rewrite lookup_insert. case_decide; [|done].
    subst. split; [by rewrite Hfid|eauto].
  - intros tag Hin. apply elem_of_app. by left.
  - intros tag [Hin|Hnew]%elem_of_app; [by left|right].
    apply list_elem_of_singleton in Hnew. subst. simpl. by rewrite Hfid.
  - intros f d' tag. rewrite lookup_insert. case_decide.
    + subst f. intros [= <-]. simpl.
      intros [Hin|Hnew]%elem_of_app; [left; eauto|right].
      apply list_elem_of_singleton in Hnew. subst tag.
      split; [|done]. apply elem_of_app. right. apply list_elem_of_here.
    + intros Hf Hin. left. eauto.
Qed.

Lemma files_status_purged fid d w :
  files w !! fid = Some d →
  files (status_purged d w) !! fid
  = Some (purge (deleted_ids (env w) (filter is_status (stored_tags d))) d).
Proof. intros Hd. unfold status_purged. simpl. by rewrite lookup_fmap, Hd. Qed.

Lemma frame_status_purged d w : frame w (status_purged d w).
Proof.
  unfold status_purged. split; simpl; [done|done|lia| |done|by left|].
  - intros f. rewrite lookup_fmap. apply fmap_is_Some.
  - intros f d' tag. rewrite lookup_fmap.
    destruct (files w !! f) as [d0|]; [|done]. simpl. intros [= <-].
    simpl. intros [_ Hin]%list_elem_of_filter. left. eauto.
Qed.

Lemma frame_status_updated fid status d w :
  files w !! fid = Some d → frame w (status_updated fid status d w).
Proof.
  intros Hfid. unfold status_updated.
  eapply frame_trans; [apply (frame_status_purged d)|].
  apply frame_tag_created. by apply files_status_purged.
Qed.

Lemma frame_set_index v w : frame w (set_index v w).
Proof. split; simpl; auto. intros f d tag Hd Htag. left. eauto. Qed.

Lemma frame_set_scheduled v w : frame w (set_scheduled v w).
Proof. split; simpl; auto. intros f d tag Hd Htag. left. eauto. Qed.

Lemma frame_indexed fid docs d w :
  files w !! fid = Some d → frame w (indexed fid docs d w).
Proof.
  intros Hfid. unfold indexed.
  eapply frame_trans; [exact (frame_status_updated fid "Indexing" d w Hfid)|].
  eapply frame_trans; [apply frame_set_index|].
  apply frame_status_updated.
  exact (files_status_updated fid "Indexing" d w).
Qed.

Lemma frame_transcribing t fid source title d w :
  files w !! fid = Some d → frame w (transcribing t fid source title d w).
Proof.
  intros Hfid. unfold transcribing.
  pose proof (frame_tag_created fid "source" source d w Hfid) as H1.
  set (w1 := tag_created fid "source" source d w) in *.
  pose proof (frame_tag_created fid "title" title _ w1
                (files_tag_created fid "source" source d w)) as H2.
  set (w2 := tag_created fid "title" title _ w1) in *.
  pose proof (frame_status_updated fid "Transcribing" _ w2
                (files_tag_created fid "title" title _ w1)) as H3.
  set (w3 := status_updated fid "Transcribing" _ w2) in *.
  pose proof (frame_trans _ _ _ (frame_trans _ _ _ H1 H2) H3)
    as [Ht Hi Hn Hf Hm Hg Hs].
  split; simpl; auto.
Qed.

End Frames.

(** ** The effect of a stage on the histories and on the schedule *)

Section StageEffects.
Import Steamship Ingestion Effects.
Implicit Types (w : World) (f fid t : nat).

Lemma world_of_discard {A} (m : M A) w :
  world_of ((m ≫= λ _, mret ()) w) = world_of (m w).
Proof. rewrite bind_run. by destruct (m w). Qed.

Lemma index_lecture_no_task t source w :
  tasks w !! t = None → world_of (index_lecture t source w) = w.
Proof. intros Ht. by rewrite index_lecture_run, Ht. Qed.

Lemma transcribe_lecture_no_task t source w :
  tasks w !! t = None → world_of (transcribe_lecture t source w) = w.
Proof. intros Ht. by rewrite transcribe_lecture_run, Ht. Qed.

Lemma index_lecture_effect t source w f :
  tasks w !! t = Some f →
  ∃ ext,
    (ext = [] ∨ ext = ["Indexing"%string]
     ∨ ext = ["Indexing"; "Indexed"]%string) ∧
    (∀ f', status_history f' (world_of (index_lecture t source w))
           = status_history f' w ++ if decide (f = f') then ext else []) ∧
    frame w (world_of (index_lecture t source w)) ∧
    scheduled (world_of (index_lecture t source w)) = scheduled w.
Proof.
  intros Ht. rewrite index_lecture_run, Ht.
  destruct (files w !! f) as [d|] eqn:Hd.
  2:{ exists []. split_and!; [by left| |apply frame_refl|done].
      intros f'. simpl. case_decide; by rewrite app_nil_r. }
  assert (∃ ext,
    (ext = [] ∨ ext = ["Indexing"%string]
     ∨ ext = ["Indexing"; "Indexed"]%string) ∧
    (∀ f', status_history f' (status_updated f "Indexing" d w)
           = status_history f' w ++ if decide (f = f') then ext else []) ∧
    frame w (status_updated f "Indexing" d w) ∧
    scheduled (status_updated f "Indexing" d w) = scheduled w) as Hupd.
  { exists ["Indexing"%string]. split_and!; [right; by left| | |done].
    - intros f'. apply history_status_updated.
    - by apply frame_status_updated. }
  destruct (stored_blocks d !! 0) as [block|]; [|exact Hupd].
  destruct (Chunker.documents _ _) as [docs|]; [|exact Hupd].
  destruct (add_documents_fails _ _); [exact Hupd|].
  exists ["Indexing"; "Indexed"]%string. split_and!; [by do 2 right| | |done].
  - intros f'. apply history_indexed.
  - by apply frame_indexed.
Qed.

Lemma transcribe_lecture_effect t source w f :
  tasks w !! t = Some f →
  ∃ news ext,
    ((news = [] ∧ ext = [])
     ∨ (∃ bt, news = [mkInvocation "index_lecture" t source [bt]]
              ∧ ext = ["Transcribing"%string])) ∧
    scheduled (world_of (transcribe_lecture t source w))
    = scheduled w ++ news ∧
    (∀ f', status_history f' (world_of (transcribe_lecture t source w))
           = status_history f' w ++ if decide (f = f') then ext else []) ∧
    frame w (world_of (transcribe_lecture t source w)).
Proof.
  intros Ht. rewrite transcribe_lecture_run, Ht.
  destruct (files w !! f) as [d|] eqn:Hd.
  2:{ exists [], []. split_and!; [by left|by rewrite app_nil_r| |apply frame_refl].
      intros f'. simpl. case_decide; by rewrite app_nil_r. }
  destruct (youtube_title _ _) as [title|]; simpl.
  - eexists [_], ["Transcribing"%string].
    split_and!; [right; eauto|reflexivity| |].
    + intros f'. apply history_transcribing.
    + by apply frame_transcribing.
  - exists [], []. split_and!; [by left|by rewrite app_nil_r| |].
    + intros f'. rewrite history_tag_created.
      rewrite decide_False by (by intros [? _]).
      case_decide; by rewrite app_nil_r.
    + by apply frame_tag_created.
Qed.

End StageEffects.

(** ** The invariant of the pipeline *)

Section PipelineInvariant.
Import Steamship Ingestion Effects.
Implicit Types (w : World) (f fid t : nat).

Lemma history_no_tags f w :
  (∀ tag, tag ∈ created_tags w → file_id tag ≠ f) → status_history f w = [].
Proof.
  unfold status_history, history_of. intros Hno.
  induction (created_tags w) as [|tag l IH]; [done|].
  rewrite filter_cons_False.
  - apply IH. intros tag' Hin. apply Hno. by right.
  - intros [_ Hf]. by apply (Hno tag); [left|].
Qed.

Lemma initial_inv e : pipeline_inv (initial e).
Proof.
  split; simpl; try done.
  - intros f [d Hd]. done.
  - intros tag Hin. by apply elem_of_nil in Hin.
  - intros t url Hin. by apply elem_of_nil in Hin.
  - intros inv Hin. by apply elem_of_nil in Hin.
  - intros a b Hin. by apply elem_of_nil in Hin.
  - intros inv Hin. by apply elem_of_nil in Hin.
  - intros f. by exists status_order.
Qed.

(** A scheduled invocation has run: the invariant holds afterwards when
    the call kept the frame, replaced the invocation by at most one
    successor at the right stage, touched the history of its own file
    only, and kept the order there. *)
Lemma inv_after_call w inv w' news :
  pipeline_inv w → inv ∈ scheduled w → frame w w' →
  scheduled w' = filter (λ i, i ≠ inv) (scheduled w) ++ news →
  (news = [] ∨ ∃ i, news = [i] ∧ arg_task_id i = arg_task_id inv
                    ∧ stage_of i w') →
  (∀ f, tasks w !! arg_task_id inv ≠ Some f →
        status_history f w' = status_history f w) →
  (∀ f, status_history f w' `prefix_of` status_order) →
  pipeline_inv w'.
Proof.
  intros [Itasks Ifiles Itags Iinj Iimp Ibound Iuniq Istage Iorder Istored]
    Hinv [Ft Fi Fn Ff Fm Fg Fs] Hsched Hnews Hother Horder.
  assert (∀ i, i ∈ scheduled w' →
            (i ∈ scheduled w ∧ i ≠ inv) ∨ i ∈ news) as Hmem.
  { intros i. rewrite Hsched. intros [Hin|Hin]%elem_of_app; [left|by right].
    by apply list_elem_of_filter in Hin as [? ?]. }
  assert (∀ i, i ∈ news → arg_task_id i = arg_task_id inv
                          ∧ stage_of i w' ∧ news = [i]) as Hnew.
  { intros i Hi. destruct Hnews as [->|(i0 & -> & Harg & Hst)].
    - by apply elem_of_nil in Hi.
    - apply list_elem_of_singleton in Hi. by subst. }
  assert (∀ i, i ∈ scheduled w → i ≠ inv →
            arg_task_id i ≠ arg_task_id inv) as Hdiff.
  { intros i Hi Hne Harg. apply Hne. by apply Iuniq. }
  split.
  - intros t f. rewrite Ft. intros Htf.
    destruct (Itasks t f Htf). lia.
  - intros f Hf. apply Ff, Ifiles in Hf. lia.
  - intros tag Htag. apply Ff.
    destruct (Fg tag Htag) as [Hold|Hfile]; [by apply Itags|done].
  - rewrite Ft. exact Iinj.
  - rewrite Ft, Fi. intros t url Hin.
    destruct (Iimp t url Hin). split; [done|lia].
  - intros i Hi. destruct (Hmem i Hi) as [[Hold _]|Hn].
    + specialize (Ibound i Hold). lia.
    + destruct (Hnew i Hn) as (-> & _ & _).
      specialize (Ibound inv Hinv). lia.
  - intros a b Ha Hb Harg.
    destruct (Hmem a Ha) as [[Ha1 Ha2]|Ha1], (Hmem b Hb) as [[Hb1 Hb2]|Hb1].
    + by apply Iuniq.
    + destruct (Hnew b Hb1) as (Hb3 & _ & _).
      exfalso. apply (Hdiff a Ha1 Ha2). congruence.
    + destruct (Hnew a Ha1) as (Ha3 & _ & _).
      exfalso. apply (Hdiff b Hb1 Hb2). congruence.
    + destruct (Hnew a Ha1) as (_ & _ & Hna).
      rewrite Hna in Hb1. apply list_elem_of_singleton in Hb1. done.
  - intros i Hi. destruct (Hmem i Hi) as [[Hold Hne]|Hn].
    2:{ by destruct (Hnew i Hn) as (_ & ? & _). }
    pose proof (Hdiff i Hold Hne) as Harg.
    assert (∀ f, tasks w !! arg_task_id i = Some f →
              status_history f w' = status_history f w) as Hsame.
    { intros f Hf. apply Hother. intros Hf'. apply Harg. by eapply Iinj. }
    destruct (Istage i Hold) as [[Hm Hst]|[Hm (f & Hf & Hst)]].
    + left. split; [done|]. rewrite Ft. intros f Hf.
      rewrite (Hsame f Hf). by apply Hst.
    + right. split; [done|]. exists f. rewrite Ft. split; [done|].
      by rewrite (Hsame f Hf).
  - exact Horder.
  - intros f d' tag Hd' Htag.
    destruct (Fs f d' tag Hd' Htag) as [(d & Hd & Hin)|Hcr]; [|done].
    destruct (Istored f d tag Hd Hin). split; [by apply Fm|done].
Qed.

Lemma prefix_of_status_order ext :
  ext = [] ∨ ext = ["Indexing"%string] ∨ ext = ["Indexing"; "Indexed"]%string →
  (["Transcribing"%string] ++ ext) `prefix_of` status_order.
Proof.
  intros [-> | [-> | ->]].
  - by exists ["Indexing"; "Indexed"]%string.
  - by exists ["Indexed"%string].
  - by exists [].
Qed.

End PipelineInvariant.

Section PipelineSteps.
Import Steamship Ingestion Effects.
Implicit Types (w : World) (f fid t : nat).

Lemma add_lecture_inv url w :
  pipeline_inv w → pipeline_inv (world_of (add_lecture url w)).
Proof.
  intros [Itasks Ifiles Itags Iinj Iimp Ibound Iuniq Istage Iorder Istored].
  rewrite add_lecture_run. simpl.
  assert (tasks w !! next_id w = None) as Hfresh.
  { destruct (tasks w !! next_id w) as [f|] eqn:E; [|done].
    destruct (Itasks _ _ E). lia. }
  split; simpl.
  - intros t f Htf. destruct (Itasks t f Htf). lia.
  - intros f Hf. specialize (Ifiles f Hf). lia.
  - exact Itags.
  - exact Iinj.
  - intros t url' [Hin|Hin]%elem_of_app.
    + destruct (Iimp t url' Hin). split; [done|lia].
    + apply list_elem_of_singleton in Hin. injection Hin as -> ->.
      split; [done|lia].
  - intros i [Hin|Hin]%elem_of_app.
    + specialize (Ibound i Hin). lia.
    + apply list_elem_of_singleton in Hin. subst. simpl. lia.
  - intros a b [Ha|Ha]%elem_of_app [Hb|Hb]%elem_of_app Harg.
    + by apply Iuniq.
    + apply list_elem_of_singleton in Hb. subst. simpl in Harg.
      specialize (Ibound a Ha). lia.
    + apply list_elem_of_singleton in Ha. subst. simpl in Harg.
      specialize (Ibound b Hb). lia.
    + apply list_elem_of_singleton in Ha, Hb. by subst.
  - intros i [Hin|Hin]%elem_of_app.
    + exact (Istage i Hin).
    + apply list_elem_of_singleton in Hin. subst. left. split; [done|].
      simpl. intros f Hf. congruence.
  - exact Iorder.
  - exact Istored.
Qed.

Lemma import_done_inv t url w :
  pipeline_inv w → (t, url) ∈ imports w → pipeline_inv (import_done t w).
Proof.
  intros [Itasks Ifiles Itags Iinj Iimp Ibound Iuniq Istage Iorder Istored] Hin.
  destruct (Iimp t url Hin) as [Hnone Hlt].
  assert (status_history (next_id w) w = []) as Hfresh.
  { apply history_no_tags. intros tag Htag Heq.
    apply Itags, Ifiles in Htag. lia. }
  split; unfold import_done; simpl.
  - intros t0 f. rewrite lookup_insert. case_decide.
    + intros [= <-]. subst. lia.
    + intros Htf. destruct (Itasks t0 f Htf). lia.
  - intros f. rewrite lookup_insert. case_decide; [lia|].
    intros Hf. specialize (Ifiles f Hf). lia.
  - intros tag Htag. rewrite lookup_insert. case_decide; [done|].
    by apply Itags.
  - intros t1 t2 f. rewrite !lookup_insert. repeat case_decide.
    + congruence.
    + intros [= <-] Hf. destruct (Itasks _ _ Hf). lia.
    + intros Hf [= <-]. destruct (Itasks _ _ Hf). lia.
    + apply Iinj.
  - intros t0 url0 [Hne Hin0]%list_elem_of_filter. simpl in Hne.
    destruct (Iimp t0 url0 Hin0). rewrite lookup_insert_ne by done.
    split; [done|lia].
  - intros i Hi. specialize (Ibound i Hi). lia.
  - exact Iuniq.
  - intros i Hi. destruct (Istage i Hi) as [[Hm Hst]|[Hm (f & Hf & Hst)]].
    + left. split; [done|]. simpl. intros f. rewrite lookup_insert.
      case_decide; [by intros [= <-]|apply Hst].
    + right. split; [done|]. exists f. simpl.
      rewrite lookup_insert_ne; [done|]. intros ->. congruence.
  - exact Iorder.
  - intros f d tag. rewrite lookup_insert. case_decide.
    + intros [= <-]. simpl. intros Hnil. by apply elem_of_nil in Hnil.
    + apply Istored.
Qed.

Lemma blockify_done_inv t fid tags w :
  pipeline_inv w → pipeline_inv (blockify_done t fid tags w).
Proof.
  intros [Itasks Ifiles Itags Iinj Iimp Ibound Iuniq Istage Iorder Istored].
  assert (∀ f, is_Some
                 (alter (λ d, mkFileData (stored_tags d) [mkBlock tags]) fid
                    (files w) !! f) ↔ is_Some (files w !! f)) as Hfiles.
  { intros f. rewrite lookup_alter. case_decide; [|done].
    subst. apply fmap_is_Some. }
  split; unfold blockify_done; simpl; try done.
  - intros f Hf. by apply Ifiles, Hfiles.
  - intros tag Htag. by apply Hfiles, Itags.
  - intros f d' tag. rewrite lookup_alter. case_decide; [|apply Istored].
    subst f. destruct (files w !! fid) as [d|] eqn:Hd; [|done].
    simpl. intros [= <-]. simpl. by apply Istored.
Qed.

Lemma scheduled_inv inv w :
  pipeline_inv w → inv ∈ scheduled w →
  pipeline_inv
    (world_of (dispatch inv
                 (set_scheduled (filter (λ i, i ≠ inv) (scheduled w)) w))).
Proof.
  intros Hinv Hin. set (w0 := set_scheduled _ w).
  pose proof (frame_set_scheduled (filter (λ i, i ≠ inv) (scheduled w)) w)
    as Hframe0. fold w0 in Hframe0.
  assert (∀ w', w' = w0 → pipeline_inv w') as Hidle.
  { intros w' ->. eapply (inv_after_call w inv w0 []); eauto.
    - by rewrite app_nil_r.
    - apply (inv_order _ Hinv). }
  unfold dispatch.
  destruct (inv_sched_stage _ Hinv inv Hin) as [[Hm Hst]|[Hm (f & Hf & Hst)]].
  - rewrite decide_False by (rewrite Hm; done). rewrite decide_True by done.
    rewrite world_of_discard.
    destruct (tasks w !! arg_task_id inv) as [f|] eqn:Hf.
    2:{ apply Hidle. by apply transcribe_lecture_no_task. }
    destruct (transcribe_lecture_effect (arg_task_id inv) (arg_source inv)
                w0 f Hf) as (news & ext & Hcase & Hsched & Hhist & Hframe).
    set (w' := world_of _) in *.
    assert (∀ f', f ≠ f' → status_history f' w' = status_history f' w)
      as Hother.
    { intros f' Hne. rewrite Hhist, decide_False by done.
      by rewrite app_nil_r. }
    eapply (inv_after_call w inv w' news); eauto.
    + by eapply frame_trans.
    + destruct Hcase as [[-> ->]|(bt & -> & ->)]; [by left|right].
      eexists. split; [done|]. split; [done|]. right. split; [done|].
      exists f. simpl. rewrite (fr_tasks _ _ Hframe). split; [exact Hf|].
      rewrite Hhist, decide_True by done.
      change (status_history f w0) with (status_history f w).
      by rewrite (Hst f eq_refl).
    + intros f' Hne. apply Hother. congruence.
    + intros f'. destruct (decide (f = f')) as [<-|Hne].
      * rewrite Hhist, decide_True by done.
        change (status_history f w0) with (status_history f w).
        rewrite (Hst f eq_refl).
        destruct Hcase as [[-> ->]|(bt & -> & ->)].
        -- by exists status_order.
        -- by exists ["Indexing"; "Indexed"]%string.
      * rewrite Hother by done. apply (inv_order _ Hinv).
  - rewrite decide_True by done. rewrite world_of_discard.
    destruct (index_lecture_effect (arg_task_id inv) (arg_source inv)
                w0 f Hf) as (ext & Hcase & Hhist & Hframe & Hsched).
    set (w' := world_of _) in *.
    assert (∀ f', f ≠ f' → status_history f' w' = status_history f' w)
      as Hother.
    { intros f' Hne. rewrite Hhist, decide_False by done.
      by rewrite app_nil_r. }
    eapply (inv_after_call w inv w' []); eauto.
    + by eapply frame_trans.
    + by rewrite app_nil_r.
    + intros f' Hne. apply Hother. congruence.
    + intros f'. destruct (decide (f = f')) as [<-|Hne].
      * rewrite Hhist, decide_True by done.
        change (status_history f w0) with (status_history f w).
        rewrite Hst. by apply prefix_of_status_order.
      * rewrite Hother by done. apply (inv_order _ Hinv).
Qed.

Lemma pipeline_step_inv w w' :
  pipeline_inv w → pipeline_step w w' → pipeline_inv w'.
Proof.
  intros Hinv Hstep. revert Hinv.
  destruct Hstep as [w url|w inv Hin Hwait|w t url Hin|w t fid tags Hin];
    intros Hinv.
  - by apply add_lecture_inv.
  - by apply scheduled_inv.
  - by eapply import_done_inv.
  - by apply blockify_done_inv.
Qed.

Lemma pipeline_reachable_inv e w :
  rtc pipeline_step (initial e) w → pipeline_inv w.
Proof.
  revert w. apply (rtc_ind_r pipeline_inv); [apply initial_inv|].
  intros w w' _ Hstep IH. by eapply pipeline_step_inv.
Qed.

(** A status marker a record carries has been written: its name is in
    the status history of the file. *)
Lemma carried_marker_written w f tag :
  pipeline_inv w → tag ∈ status_markers f w →
  name tag ∈ status_history f w.
Proof.
  intros Hinv. unfold status_markers.
  destruct (files w !! f) as [d|] eqn:Hd.
  2:{ intros Hnil. by apply elem_of_nil in Hnil. }
  intros [Hst Hin]%list_elem_of_filter.
  destruct (inv_stored _ Hinv f d tag Hd Hin) as [Hcr Hf].
  unfold status_history, history_of. apply list_elem_of_fmap_2.
  by apply list_elem_of_filter.
Qed.

Lemma indexed_needs_all history :
  history `prefix_of` status_order → "Indexed"%string ∈ history →
  history = status_order.
Proof.
  intros [k Hk] Hin. unfold status_order in *.
  destruct history as [|a [|b [|c [|x l]]]]; simplify_eq/=; try done;
    repeat (apply elem_of_cons in Hin as [Hin|Hin]; [done|]);
    by apply elem_of_nil in Hin.
Qed.

End PipelineSteps.

Section StatusOrderContract.
Import Steamship Ingestion Effects.

(** C8: in every workspace the pipeline can reach from the empty one, the
    status markers written for a lecture are, in order, a beginning of
    Transcribing, Indexing, Indexed, and a lecture that carries the marker
    Indexed has had all three written; whatever requests reach the stage
    endpoints, every Indexed in a lecture's history comes right after an
    Indexing; a call of [index_lecture] that returns has written Indexing
    and Indexed and has inserted its documents, and a call that raises has
    written no Indexed. Inside [index_lecture], Indexing is written before
    the documents are inserted and Indexed after: once the first status
    update has completed, Indexing is written and the vector index is as
    it was; if the insertion raises then, the call raises with Indexing
    written and Indexed not; when the insertion has completed, the
    documents are in and Indexed is not written yet; it is written by the
    second status update, after which the call returns. A run of the
    pipeline whose services do not fail writes all three. *)
Theorem status_marker_order :
  (∀ e w f,
     rtc pipeline_step (initial e) w →
     status_history f w `prefix_of` status_order) ∧
  (∀ e w f tag,
     rtc pipeline_step (initial e) w →
     tag ∈ status_markers f w → name tag = "Indexed"%string →
     status_history f w = status_order) ∧
  (∀ w0 w,
     rtc step w0 w →
     (∀ f, indexed_after_indexing (status_history f w0)) →
     ∀ f, indexed_after_indexing (status_history f w)) ∧
  (∀ w t source,
     match index_lecture t source w with
     | Ok _ w' =>
         ∃ fid docs,
           tasks w !! t = Some fid ∧
           index w' = index w ++ docs ∧
           status_history fid w'
           = status_history fid w ++ ["Indexing"; "Indexed"]%string
     | Raise _ w' =>
         ∀ f, ∃ ext,
           status_history f w' = status_history f w ++ ext ∧
           (ext = [] ∨ ext = ["Indexing"%string])
     end) ∧
  (∀ w t source fid d block docs w1,
     tasks w !! t = Some fid →
     files w !! fid = Some d →
     stored_blocks d !! 0 = Some block →
     Chunker.documents source (Chunker.timestamps_of (block_tags block))
     = Some docs →
     _update_file_status (snapshot fid d) "Indexing" w = Ok () w1 →
     status_history fid w1 = status_history fid w ++ ["Indexing"%string] ∧
     index w1 = index w ∧
     (∀ e w', add_documents docs w1 = Raise e w' →
        index_lecture t source w = Raise e w' ∧
        status_history fid w'
        = status_history fid w ++ ["Indexing"%string]) ∧
     (∀ w2, add_documents docs w1 = Ok () w2 →
        index w2 = index w ++ docs ∧
        status_history fid w2 = status_history fid w ++ ["Indexing"%string] ∧
        ∀ w3, _update_file_status (snapshot fid d) "Indexed" w2 = Ok () w3 →
          index_lecture t source w = Ok true w3 ∧
          index w3 = index w ++ docs ∧
          status_history fid w3
          = status_history fid w ++ ["Indexing"; "Indexed"]%string)) ∧
  (∀ w t source fid d title tags,
     tasks w !! t = Some fid →
     files w !! fid = Some d →
     youtube_title (env w) source = Some title →
     (∀ docs, add_documents_fails (env w) docs = false) →
     let transcription := S (S (S (next_id w))) in
     let inv := mkInvocation "index_lecture" t source [transcription] in
     ∃ w1,
       transcribe_lecture t source w = Ok (S transcription) w1 ∧
       scheduled w1 = scheduled w ++ [inv] ∧
       blockify_tasks w1 = blockify_tasks w ++ [(transcription, fid)] ∧
       status_history fid w1
       = status_history fid w ++ ["Transcribing"%string] ∧
       let w2 := blockify_done transcription fid tags w1 in
       Forall (λ t', t' ∈ completed w2) (wait_on_tasks inv) ∧
       ∃ w3 docs,
         dispatch inv
           (set_scheduled (filter (λ i, i ≠ inv) (scheduled w2)) w2)
         = Ok () w3 ∧
         Chunker.documents source (Chunker.timestamps_of tags) = Some docs ∧
         index w3 = index w ++ docs ∧
         status_history fid w3
         = status_history fid w ++ status_order).
Proof.
  split_and!.
  - intros e w f Hreach. by apply (inv_order w), (pipeline_reachable_inv e).
  - intros e w f tag Hreach Hin Hname.
    pose proof (pipeline_reachable_inv e w Hreach) as Hinv.
    apply indexed_needs_all; [apply (inv_order w Hinv)|].
    rewrite <- Hname. by apply carried_marker_written.
  - apply reachable_indexed_after_indexing.
  - apply index_lecture_order.
  - apply index_lecture_stages.
  - apply pipeline_run.
Qed.

End StatusOrderContract.

Section StatusOrderExamples.
Import Steamship Ingestion Effects Examples.

(** A witness for C8: the sample run is a run of the pipeline, and the status
    history of its lecture is Transcribing, Indexing, Indexed. For the
    transcribed lecture in the workspace whose vector index is down, the
    first status update of [index_lecture] completes, the insertion
    raises, and the call raises with Indexing written after
    Transcribing. *)
Lemma status_marker_order_witness :
  rtc pipeline_step (initial reliable) run5 ∧
  status_history 2 run5 = status_order ∧
  status_history 2 run5 `prefix_of` status_order ∧
  ∃ docs w1,
    Chunker.documents lecture_url (Chunker.timestamps_of (transcript 3))
    = Some docs ∧
    _update_file_status (snapshot 7 transcribed_lecture) "Indexing"
      stalled_world = Ok () w1 ∧
    add_documents docs w1 = Raise SteamshipError w1 ∧
    index_lecture 5 lecture_url stalled_world = Raise SteamshipError w1 ∧
    status_history 7 w1 = ["Transcribing"; "Indexing"]%string ∧
    index w1 = [].
Proof.
  assert (pipeline_step (initial reliable) run1) as Hadd
    by apply pipeline_add_lecture.
  assert (pipeline_step run1 run2) as Himported.
  { apply (pipeline_import_done run1 0 lecture_url).
    vm_compute. constructor. }
  assert (pipeline_step run2 run3) as Htranscribe.
  { apply (pipeline_scheduled run2 transcribe_inv).
    - vm_compute. constructor.
    - apply Forall_singleton. vm_compute. reflexivity. }
  assert (pipeline_step run3 run4) as Htranscribed.
  { apply (pipeline_blockify_done run3 6 2). vm_compute. constructor. }
  assert (pipeline_step run4 run5) as Hindex.
  { apply (pipeline_scheduled run4 index_inv).
    - vm_compute. constructor.
    - apply Forall_singleton. vm_compute. reflexivity. }
  assert (rtc pipeline_step (initial reliable) run5) as Hreach.
  { apply (rtc_r _ run4); [|exact Hindex].
    apply (rtc_r _ run3); [|exact Htranscribed].
    apply (rtc_r _ run2); [|exact Htranscribe].
    apply (rtc_r _ run1); [|exact Himported].
    apply rtc_once, Hadd. }
  split; [exact Hreach|]. split; [vm_compute; reflexivity|].
  split; [exact (proj1 status_marker_order reliable run5 2 Hreach)|].
  destruct (documents_total lecture_url
              (Chunker.timestamps_of (transcript 3))) as [docs Hdocs].
  assert (tasks stalled_world !! 5 = Some 7) as Ht by reflexivity.
  assert (files stalled_world !! 7 = Some transcribed_lecture) as Hd
    by reflexivity.
  assert (stored_blocks transcribed_lecture !! 0
          = Some (mkBlock (transcript 3))) as Hblock by reflexivity.
  assert (_update_file_status (snapshot 7 transcribed_lecture) "Indexing"
            stalled_world
          = Ok () (status_updated 7 "Indexing" transcribed_lecture
                     stalled_world)) as Hupd
    by (vm_compute; reflexivity).
  destruct (proj1 (proj2 (proj2 (proj2 (proj2 status_marker_order))))
              stalled_world 5 lecture_url 7 transcribed_lecture
              (mkBlock (transcript 3)) docs _ Ht Hd Hblock Hdocs Hupd)
    as (Hhist & Hsame & Hfail & _).
  assert (add_documents docs
            (status_updated 7 "Indexing" transcribed_lecture stalled_world)
          = Raise SteamshipError
              (status_updated 7 "Indexing" transcribed_lecture
                 stalled_world)) as Hraises by reflexivity.
  destruct (Hfail _ _ Hraises) as [Hrun _].
  exists docs, (status_updated 7 "Indexing" transcribed_lecture stalled_world).
  split; [exact Hdocs|]. split; [exact Hupd|]. split; [exact Hraises|].
  split; [exact Hrun|]. split; [|exact Hsame].
  rewrite Hhist. vm_compute. reflexivity.
Defined.

End StatusOrderExamples.

(** ** The answer endpoint *)

Section Answer.
Import QA.
Implicit Types (self : AskMyCourse) (question : string)
  (chat_session_id : option string)
  (store : gmap (option string) (list Turn)).

(** The session [answer] works on. *)
Lemma answer_run self question chat_session_id store :
  answer self question chat_session_id store =
  let session :=
    Py.or_ chat_session_id (default_chat_session_id (config self)) in
  let chat_history := ChatHistory_load session store in
  match qa_chain self question chat_history with
  | None => None
  | Some (result, calls) =>
      let events :=
        [HistoryLoad session; ChainCall question chat_history calls] in
      if decide (length (source_documents result) = 0) then
        Some (mkResponse no_sources_answer (source_documents result),
              store, events)
      else
        Some (mkResponse (Py.strip (chain_answer result))
                (source_documents result),
              ChatHistory_append session question (chain_answer result) store,
              events ++ [HistoryAppend session question (chain_answer result)])
  end.
Proof.
  unfold answer. simpl.
  destruct (qa_chain self question _) as [[result calls]|]; reflexivity.
Qed.

(** C2 (as amended): when the chain's result holds no source document,
    [answer] returns the fixed message and an empty source list. The
    check comes after the one call of the chain, so the service calls of
    the chain have all been made; with langchain's chain these include
    the answer-synthesis call on the empty document list, whose answer
    is dropped. *)
Theorem no_sources_response self question chat_session_id store result calls :
  qa_chain self question
    (ChatHistory_load
       (Py.or_ chat_session_id (default_chat_session_id (config self)))
       store) = Some (result, calls) →
  length (source_documents result) = 0 →
  ∃ events,
    answer self question chat_session_id store
    = Some (mkResponse no_sources_answer [], store, events) ∧
    service_calls events = calls ∧
    (∀ chain,
       qa_chain self = ChatVectorDBChain_call chain →
       ∃ query, CombineDocs [] query ∈ service_calls events).
Proof.
  intros Hchain Hlen. rewrite answer_run. simpl. rewrite Hchain.
  rewrite decide_True by done.
  apply length_zero_iff_nil in Hlen as Hnil. rewrite Hnil.
  eexists. split; [reflexivity|].
  assert (∀ session chat_history,
            service_calls [HistoryLoad session;
                           ChainCall question chat_history calls] = calls)
    as ->.
  { intros. unfold service_calls. simpl. by rewrite app_nil_r. }
  split; [done|].
  intros chain Hself. rewrite Hself in Hchain.
  unfold ChatVectorDBChain_call in Hchain.
  destruct (ChatHistory_load _ store) as [|turn turns];
    injection Hchain as <- <-; simpl in Hnil; rewrite Hnil;
    eexists; simpl;
    repeat first [apply list_elem_of_here | apply list_elem_of_further].
Qed.

(** C3 (as amended): a call of [answer] whose chain result holds at least
    one source document appends exactly one turn to the session it
    resolved, and leaves the other sessions alone. The appended answer is
    the chain's answer as generated; the answer returned to the caller is
    its trimmed form, computed after the append. *)
Theorem answer_appends_one_turn self question chat_session_id store
    result calls :
  qa_chain self question
    (ChatHistory_load
       (Py.or_ chat_session_id (default_chat_session_id (config self)))
       store) = Some (result, calls) →
  source_documents result ≠ [] →
  let session :=
    Py.or_ chat_session_id (default_chat_session_id (config self)) in
  ∃ store',
    answer self question chat_session_id store
    = Some (mkResponse (Py.strip (chain_answer result))
              (source_documents result),
            store',
            [HistoryLoad session;
             ChainCall question (ChatHistory_load session store) calls;
             HistoryAppend session question (chain_answer result)]) ∧
    ChatHistory_load session store'
    = ChatHistory_load session store ++ [(question, chain_answer result)] ∧
    (∀ other, other ≠ session → store' !! other = store !! other).
Proof.
  intros Hchain Hne session. rewrite answer_run. simpl. fold session.
  fold session in Hchain. rewrite Hchain.
  rewrite decide_False by (by intros ?%length_zero_iff_nil).
  eexists. split; [reflexivity|]. unfold ChatHistory_append. split.
  - unfold ChatHistory_load at 1. by rewrite lookup_insert_eq.
  - intros other Hother. by rewrite lookup_insert_ne.
Qed.

(** C9: an empty [chat_session_id] is falsy, so [answer] replaces it by
    the configured default exactly as it replaces an absent one. When the
    chain gives a result on the history of the default session, the call
    with the empty id returns, and returns what the call with no id
    returns: it loads the history of the default session and hands it to
    the chain, every append it makes goes to the default session, and no
    other session changes, so the session named by the empty string is
    neither read nor written (unless it is the default itself). A
    non-empty id is kept: that call loads the history of the session it
    names. *)
Theorem empty_session_id_uses_default self question store result calls :
  qa_chain self question
    (ChatHistory_load (default_chat_session_id (config self)) store)
  = Some (result, calls) →
  (∃ response store' events,
     answer self question (Some ""%string) store
     = Some (response, store', events) ∧
     answer self question None store = Some (response, store', events) ∧
     events !! 0
     = Some (HistoryLoad (default_chat_session_id (config self))) ∧
     events !! 1
     = Some (ChainCall question
               (ChatHistory_load (default_chat_session_id (config self))
                  store) calls) ∧
     (∀ session q a,
        HistoryAppend session q a ∈ events →
        session = default_chat_session_id (config self)) ∧
     (source_documents result ≠ [] →
      HistoryAppend (default_chat_session_id (config self)) question
        (chain_answer result) ∈ events ∧
      ChatHistory_load (default_chat_session_id (config self)) store'
      = ChatHistory_load (default_chat_session_id (config self)) store
        ++ [(question, chain_answer result)]) ∧
     (∀ other, other ≠ default_chat_session_id (config self) →
               store' !! other = store !! other)) ∧
  Py.or_ (Some ""%string) (default_chat_session_id (config self))
  = default_chat_session_id (config self) ∧
  Py.or_ None (default_chat_session_id (config self))
  = default_chat_session_id (config self) ∧
  answer self question (Some ""%string) store
  = answer self question None store ∧
  (∀ response store' events,
     answer self question (Some ""%string) store
     = Some (response, store', events) →
     head events
     = Some (HistoryLoad (default_chat_session_id (config self)))) ∧
  (∀ s, s ≠ ""%string →
        Py.or_ (Some s) (default_chat_session_id (config self)) = Some s) ∧
  (∀ s kept kept_calls,
     s ≠ ""%string →
     qa_chain self question (ChatHistory_load (Some s) store)
     = Some (kept, kept_calls) →
     ∃ response store' events,
       answer self question (Some s) store
       = Some (response, store', events) ∧
       events !! 0 = Some (HistoryLoad (Some s)) ∧
       events !! 1
       = Some (ChainCall question (ChatHistory_load (Some s) store)
                 kept_calls)).
Proof.
  intros Hchain.
  assert (Py.or_ (Some ""%string) (default_chat_session_id (config self))
          = default_chat_session_id (config self)) as Hempty by reflexivity.
  assert (∀ s, s ≠ ""%string →
            Py.or_ (Some s) (default_chat_session_id (config self))
            = Some s) as Hkept.
  { intros s Hs. unfold Py.or_, Py.truthy.
    by rewrite bool_decide_eq_false_2. }
  split_and!; try reflexivity.
  - rewrite !answer_run. cbv zeta. rewrite Hempty.
    change (Py.or_ None (default_chat_session_id (config self)))
      with (default_chat_session_id (config self)).
    rewrite Hchain.
    destruct (decide (length (source_documents result) = 0)) as [Hlen|Hlen].
    + eexists _, _, _. split_and!; try reflexivity.
      * intros session q a Hin.
        apply elem_of_cons in Hin as [Hin|Hin]; [done|].
        apply elem_of_cons in Hin as [Hin|Hin]; [done|].
        by apply elem_of_nil in Hin.
      * intros Hne. by apply length_zero_iff_nil in Hlen.
    + eexists _, _, _. split_and!; try reflexivity.
      * intros session q a Hin.
        apply elem_of_cons in Hin as [Hin|Hin]; [done|].
        apply elem_of_cons in Hin as [Hin|Hin]; [done|].
        apply list_elem_of_singleton in Hin. by injection Hin as -> _ _.
      * intros _. split.
        -- do 2 apply list_elem_of_further. apply list_elem_of_here.
        -- unfold ChatHistory_append, ChatHistory_load at 1.
           by rewrite lookup_insert_eq.
      * intros other Hother. unfold ChatHistory_append.
        by rewrite lookup_insert_ne.
  - intros response store' events. rewrite answer_run. simpl.
    destruct (qa_chain self question _) as [[result' calls']|]; [|done].
    case_decide; by intros [= <- <- <-].
  - exact Hkept.
  - intros s kept kept_calls Hs Hkc. rewrite answer_run. cbv zeta.
    rewrite (Hkept s Hs), Hkc.
    case_decide; eexists _, _, _; split_and!; reflexivity.
Qed.

(** C10: when the chain's result holds no source document, [answer]
    leaves the Chat History Store as it was and makes no append. *)
Theorem no_sources_keeps_history self question chat_session_id store
    result calls :
  qa_chain self question
    (ChatHistory_load
       (Py.or_ chat_session_id (default_chat_session_id (config self)))
       store) = Some (result, calls) →
  length (source_documents result) = 0 →
  ∃ response events,
    answer self question chat_session_id store
    = Some (response, store, events) ∧
    ∀ session q a, HistoryAppend session q a ∉ events.
Proof.
  intros Hchain Hlen. rewrite answer_run. simpl. rewrite Hchain.
  rewrite decide_True by done.
  eexists _, _. split; [reflexivity|].
  intros session q a Hin.
  apply elem_of_cons in Hin as [Hin|Hin]; [done|].
  apply elem_of_cons in Hin as [Hin|Hin]; [done|].
  by apply elem_of_nil in Hin.
Qed.

End Answer.

Section AnswerExamples.
Import QA Examples.

(** A witness for C2: a question to the service over an empty index. *)
Lemma no_sources_response_witness :
  qa_chain (service chain_over_empty_index) "What is X?"
    (ChatHistory_load
       (Py.or_ None
          (default_chat_session_id (config (service chain_over_empty_index))))
       ∅)
  = Some (mkChainResult "I do not know." [],
          [SimilaritySearch "What is X?" 2; CombineDocs [] "What is X?"]) ∧
  ∃ events,
    answer (service chain_over_empty_index) "What is X?" None ∅
    = Some (mkResponse no_sources_answer [], ∅, events) ∧
    service_calls events
    = [SimilaritySearch "What is X?" 2; CombineDocs [] "What is X?"].
Proof.
  assert (qa_chain (service chain_over_empty_index) "What is X?"
            (ChatHistory_load
               (Py.or_ None
                  (default_chat_session_id
                     (config (service chain_over_empty_index))))
               ∅)
          = Some (mkChainResult "I do not know." [],
                  [SimilaritySearch "What is X?" 2;
                   CombineDocs [] "What is X?"])) as Hchain
    by reflexivity.
  split; [exact Hchain|].
  destruct (no_sources_response _ _ _ _ _ _ Hchain eq_refl)
    as (events & Hanswer & Hcalls & _).
  exists events. split; [exact Hanswer|exact Hcalls].
Defined.

(** A counterexample to C2 as stated: over an empty index the chain retrieves nothing,
    [answer] returns the fixed message with no sources, and the
    answer-synthesis model has been called on that very call. *)
Lemma no_sources_still_calls_answer_model :
  ∃ events,
    answer (service chain_over_empty_index) "What is X?" None ∅
    = Some (mkResponse no_sources_answer [], ∅, events) ∧
    CombineDocs [] "What is X?" ∈ service_calls events ∧
    existsb is_combine_docs (service_calls events) = true.
Proof.
  eexists. split; [reflexivity|]. split; [|reflexivity].
  apply list_elem_of_further, list_elem_of_here.
Qed.

(** A witness for C3: a question to the service over an index that holds one
    passage. *)
Lemma answer_appends_one_turn_witness :
  source_documents (mkChainResult " X is a thing. " [passage]) ≠ [] ∧
  ∃ store',
    answer (service chain_over_passage) "What is X?" None ∅
    = Some (mkResponse "X is a thing." [passage], store',
            [HistoryLoad (Some "default"%string);
             ChainCall "What is X?" []
               [SimilaritySearch "What is X?" 2;
                CombineDocs [passage] "What is X?"];
             HistoryAppend (Some "default"%string) "What is X?"
               " X is a thing. "]) ∧
    ChatHistory_load (Some "default"%string) store'
    = [("What is X?", " X is a thing. ")%string].
Proof.
  assert (source_documents (mkChainResult " X is a thing. " [passage]) ≠ [])
    as Hne by discriminate.
  split; [exact Hne|].
  assert (qa_chain (service chain_over_passage) "What is X?"
            (ChatHistory_load
               (Py.or_ None
                  (default_chat_session_id
                     (config (service chain_over_passage))))
               ∅)
          = Some (mkChainResult " X is a thing. " [passage],
                  [SimilaritySearch "What is X?" 2;
                   CombineDocs [passage] "What is X?"])) as Hchain
    by reflexivity.
  destruct (answer_appends_one_turn _ _ _ _ _ _ Hchain Hne)
    as (store' & Hanswer & Hload & _).
  exists store'. split; [exact Hanswer|exact Hload].
Defined.

(** A counterexample to C3 as stated: the answer model pads its completion with white
    space; the turn appended to the history keeps the padding, the answer
    returned to the caller does not. *)
Lemma appended_answer_is_not_trimmed :
  ∃ response store' events,
    answer (service chain_over_passage) "What is X?" None ∅
    = Some (response, store', events) ∧
    sources response = [passage] ∧
    response_answer response = "X is a thing."%string ∧
    ChatHistory_load (Some "default"%string) store'
    = [("What is X?", " X is a thing. ")%string] ∧
    ∀ turn, turn ∈ ChatHistory_load (Some "default"%string) store' →
            turn.2 ≠ response_answer response.
Proof.
  eexists _, _, _. split; [reflexivity|].
  split; [reflexivity|]. split; [reflexivity|]. split; [reflexivity|].
  intros turn Hin. apply list_elem_of_singleton in Hin. subst turn.
  simpl. discriminate.
Qed.

(** A witness for C9: a question with the empty session id to the service
    over an index that holds one passage; the turn goes to the session
    "default". *)
Lemma empty_session_id_uses_default_witness :
  ∃ response store' events,
    answer (service chain_over_passage) "What is X?" (Some ""%string) ∅
    = Some (response, store', events) ∧
    events !! 0 = Some (HistoryLoad (Some "default"%string)) ∧
    ChatHistory_load (Some "default"%string) store'
    = [("What is X?", " X is a thing. ")%string] ∧
    store' !! Some ""%string = None.
Proof.
  assert (qa_chain (service chain_over_passage) "What is X?"
            (ChatHistory_load
               (default_chat_session_id (config (service chain_over_passage)))
               ∅)
          = Some (mkChainResult " X is a thing. " [passage],
                  [SimilaritySearch "What is X?" 2;
                   CombineDocs [passage] "What is X?"])) as Hchain
    by reflexivity.
  assert (source_documents (mkChainResult " X is a thing. " [passage]) ≠ [])
    as Hne by discriminate.
  destruct (proj1 (empty_session_id_uses_default _ _ _ _ _ Hchain))
    as (response & store' & events & Hanswer & _ & Hload & _ & _ & Happend
        & Hothers).
  exists response, store', events.
  split; [exact Hanswer|]. split; [exact Hload|].
  split; [exact (proj2 (Happend Hne))|].
  rewrite (Hothers (Some ""%string)); [reflexivity|discriminate].
Defined.

(** A witness for C10: the Chat History Store of a session with one earlier
    turn, and a question to the service over an empty index. *)
Lemma no_sources_keeps_history_witness :
  ∃ response events,
    answer (service chain_over_empty_index) "And Y?" (Some "s1"%string)
      {[ Some "s1"%string := [("What is X?", "X is a thing.")%string] ]}
    = Some (response,
            {[ Some "s1"%string := [("What is X?", "X is a thing.")%string] ]},
            events) ∧
    ∀ session q a, HistoryAppend session q a ∉ events.
Proof.
  assert (qa_chain (service chain_over_empty_index) "And Y?"
            (ChatHistory_load
               (Py.or_ (Some "s1"%string)
                  (default_chat_session_id
                     (config (service chain_over_empty_index))))
               {[ Some "s1"%string :=
                    [("What is X?", "X is a thing.")%string] ]})
          = Some (mkChainResult "I do not know." [],
                  [CondenseQuestion "And Y?"
                     [("What is X?", "X is a thing.")%string];
                   SimilaritySearch "And Y?" 2; CombineDocs [] "And Y?"]))
    as Hchain by (vm_compute; reflexivity).
  exact (no_sources_keeps_history _ _ _ _ _ _ Hchain eq_refl).
Defined.

End AnswerExamples.

(** * Further properties of the code *)

(** ** The shape of the chunks *)

Section ChunkShapes.
Import Chunker Shapes.
Context {A : Type}.
Implicit Types (timestamps window : list A) (i j k : nat).

Lemma range_len_ceil stop step :
  0 < step → Py.range_len 0 stop step = (stop + (step - 1)) `div` step.
Proof.
  intros Hstep. unfold Py.range_len. case_decide as Hs.
  - replace (stop + (step - 1)) with (stop - 0 - 1 + 1 * step) by lia.
    rewrite Nat.div_add by lia. done.
  - replace stop with 0 by lia. symmetry. apply Nat.div_small. lia.
Qed.

Lemma windows_count timestamps :
  length (windows timestamps) = (length timestamps + 149) `div` 150.
Proof.
  unfold windows, window_starts, Py.range.
  rewrite !length_fmap, length_seq, stride_eq.
  by rewrite range_len_ceil by lia.
Qed.

Lemma windows_is_Some timestamps k :
  is_Some (windows timestamps !! k) ↔ k * stride < length timestamps.
Proof.
  split.
  - intros [w Hw]. by apply windows_lookup in Hw as [? _].
  - intros Hlt. eexists. by apply windows_lookup.
Qed.

Lemma stride_pieces timestamps n :
  concat ((λ k, take stride (drop (k * stride) timestamps)) <$> seq 0 n)
  = take (n * stride) timestamps.
Proof.
  induction n as [|n IH]; [done|].
  rewrite seq_S, fmap_app, concat_app, IH.
  cbn [fmap list_fmap concat plus]. rewrite app_nil_r.
  rewrite take_take_drop. f_equal. generalize stride. intros s. lia.
Qed.

Lemma windows_pieces timestamps :
  take stride <$> windows timestamps
  = (λ k, take stride (drop (k * stride) timestamps))
    <$> seq 0 (Py.range_len 0 (length timestamps) stride).
Proof.
  unfold windows, window_starts, Py.range.
  rewrite <- !list_fmap_compose. apply list_fmap_ext.
  intros _ k _. simpl. unfold timestamp_tags_window, Py.slice.
  rewrite take_take. f_equal.
  unfold stride, context_window_size, context_window_overlap. lia.
Qed.

Lemma covers_iff timestamps k j :
  covers timestamps k j ↔
  k * stride ≤ j ∧ j < k * stride + context_window_size
  ∧ j < length timestamps ∧ k * stride < length timestamps.
Proof.
  unfold covers. split.
  - intros (w & Hw & Hle & Hlt).
    apply windows_lookup in Hw as [Hk ->].
    rewrite window_length in Hlt. lia.
  - intros (Hle & Hlt & Hj & Hk). eexists. split; [by apply windows_lookup|].
    split; [done|]. rewrite window_length. lia.
Qed.

End ChunkShapes.

Section ChunkShapeContract.
Import Chunker Shapes.

(** X1: the loop yields one chunk per started stride: a sequence of L
    tokens gives the ceiling of L/150 windows and as many documents. *)
Theorem chunk_count source (timestamps : list Tag) :
  length (windows timestamps) = (length timestamps + 149) `div` 150 ∧
  ∃ docs,
    documents source timestamps = Some docs ∧
    length docs = (length timestamps + 149) `div` 150.
Proof.
  split; [apply windows_count|].
  destruct (documents_total source timestamps) as [docs Hdocs].
  exists docs. split; [done|].
  by rewrite (documents_length _ _ _ Hdocs), windows_count.
Qed.

(** X2: window k holds min(200, L - 150k) tokens, at least one and at
    most 200; a window that has a successor holds at least 151 tokens,
    and a window with two successors is full. *)
Theorem window_sizes {A} (timestamps : list A) k window :
  windows timestamps !! k = Some window →
  length window = 200 `min` (length timestamps - k * 150) ∧
  1 ≤ length window ≤ 200 ∧
  (is_Some (windows timestamps !! S k) → 151 ≤ length window) ∧
  (is_Some (windows timestamps !! S (S k)) → length window = 200).
Proof.
  intros [Hk ->]%windows_lookup. rewrite window_length.
  rewrite !windows_is_Some. rewrite stride_eq in *.
  unfold context_window_size. split_and!; lia.
Qed.

(** X3: the chunks lose and reorder nothing: dropping the overlap, that
    is keeping the first 150 tokens of every window, and concatenating
    gives back the token sequence. *)
Theorem windows_rebuild_sequence {A} (timestamps : list A) :
  concat (take stride <$> windows timestamps) = timestamps.
Proof.
  rewrite windows_pieces, stride_pieces. apply take_ge.
  pose proof (range_len_lt (length timestamps) stride
                (Py.range_len 0 (length timestamps) stride)) as Hlt.
  rewrite stride_eq in *. specialize (Hlt ltac:(lia)). lia.
Qed.

(** X4: a position of the sequence lies in its own window, number
    j div 150, and besides only in the window before, when j is among the
    first 50 positions of its own window; so every token is in one chunk
    or in two, never in more. The window holds the token at the offset
    j - 150k. *)
Theorem position_in_at_most_two_windows {A} (timestamps : list A) k j :
  j < length timestamps →
  (covers timestamps k j ↔
   k = j `div` 150 ∨ (S k = j `div` 150 ∧ j `mod` 150 < 50)) ∧
  (covers timestamps k j →
   ∃ window, windows timestamps !! k = Some window ∧
             window !! (j - k * 150) = timestamps !! j).
Proof.
  intros Hj.
  pose proof (Nat.div_mod j 150 ltac:(lia)) as Hdm.
  pose proof (Nat.mod_upper_bound j 150 ltac:(lia)) as Hub.
  split.
  - rewrite covers_iff, stride_eq. unfold context_window_size. split.
    + intros (Hle & Hlt & _ & _).
      destruct (decide (k = j `div` 150)) as [|Hne]; [by left|right]. nia.
    + intros [->|[Hk Hmod]]; nia.
  - intros Hc. apply covers_iff in Hc as (Hle & Hlt & _ & Hk).
    rewrite stride_eq in *. eexists. split; [by apply windows_lookup|].
    rewrite stride_eq, window_lookup by lia. f_equal. lia.
Qed.

End ChunkShapeContract.

(** ** The order of the tokens *)

Section TokenOrder.
Import Chunker Shapes.
Context {A : Type} (key : A → Z).
Implicit Types (l : list A) (x : A).

Lemma insert_by_sorted x l :
  sorted_by key l → sorted_by key (Py.insert_by key x l).
Proof.
  induction l as [|y l IH]; simpl; [done|].
  intros [Hy Hl]. case_decide as Hxy; simpl.
  - split_and!; try done. constructor; [done|].
    eapply Forall_impl; [exact Hy|]. simpl. intros z Hz. lia.
  - split; [|by apply IH].
    rewrite insert_by_Permutation. constructor; [lia|done].
Qed.

Lemma sorted_sorted_by l : sorted_by key (Py.sorted key l).
Proof.
  induction l as [|x l IH]; simpl; [done|]. by apply insert_by_sorted.
Qed.

Lemma sorted_by_ordered l : sorted_by key l → ordered_by key l.
Proof.
  induction l as [|x l IH]; intros Hs i j a b Hij Ha Hb.
  - done.
  - destruct Hs as [Hx Hl]. destruct i as [|i], j as [|j]; simpl in *.
    + simplify_eq. lia.
    + simplify_eq. rewrite Forall_lookup in Hx. by eapply Hx.
    + lia.
    + eapply (IH Hl i j); [lia|done|done].
Qed.

Lemma ordered_sorted_by l : ordered_by key l → sorted_by key l.
Proof.
  induction l as [|x l IH]; intros Ho; simpl; [done|]. split.
  - apply Forall_lookup. intros j y Hy.
    apply (Ho 0 (S j) x y); [lia|done|done].
  - apply IH. intros i j a b Hij Ha Hb.
    apply (Ho (S i) (S j) a b); [lia|done|done].
Qed.

Lemma sorted_of_sorted l : sorted_by key l → Py.sorted key l = l.
Proof.
  induction l as [|x l IH]; simpl; [done|].
  intros [Hx Hl]. fold (Py.sorted key l). rewrite (IH Hl).
  destruct l as [|y l]; simpl; [done|].
  apply Forall_cons in Hx as [Hxy _]. by rewrite decide_True.
Qed.

Lemma window_ordered l i :
  ordered_by key l → ordered_by key (timestamp_tags_window l i).
Proof.
  intros Ho j1 j2 a b Hj Ha Hb.
  pose proof (lookup_lt_Some _ _ _ Ha) as H1.
  pose proof (lookup_lt_Some _ _ _ Hb) as H2.
  rewrite window_length in H1, H2.
  rewrite window_lookup in Ha, Hb by lia.
  apply (Ho (i + j1) (i + j2) a b); [lia|done|done].
Qed.

End TokenOrder.

Section TokenOrderContract.
Import Chunker Shapes.

(** X5: the sequence [index_lecture] chunks holds exactly the block's
    tags of kind "timestamp", in non-decreasing order of [start_idx];
    when the transcriber's tags already come in that order, it is the
    list of the timestamp tags as the block gives them. *)
Theorem timestamps_in_order (tags : list Tag) :
  ordered_by start_idx (timestamps_of tags) ∧
  timestamps_of tags ≡ₚ filter (λ tag, kind tag = "timestamp"%string) tags ∧
  (∀ t, t ∈ timestamps_of tags ↔ t ∈ tags ∧ kind t = "timestamp"%string) ∧
  (ordered_by start_idx (filter (λ tag, kind tag = "timestamp"%string) tags) →
   timestamps_of tags = filter (λ tag, kind tag = "timestamp"%string) tags).
Proof.
  unfold timestamps_of. split_and!.
  - apply sorted_by_ordered, sorted_sorted_by.
  - apply sorted_Permutation.
  - intros t. rewrite sorted_Permutation, list_elem_of_filter. tauto.
  - intros Ho. by apply sorted_of_sorted, ordered_sorted_by.
Qed.

(** X6: the [start_idx] a chunk of [index_lecture] records is that of the
    window's last token, so no token of the chunk has a larger one: the
    metadata names where the chunk ends, not where it starts. *)
Theorem chunk_start_idx_is_largest source (tags : list Tag) docs k doc :
  documents source (timestamps_of tags) = Some docs →
  docs !! k = Some doc →
  ∃ window,
    windows (timestamps_of tags) !! k = Some window ∧
    ∀ t, t ∈ window → (start_idx t ≤ md_start_idx (metadata doc))%Z.
Proof.
  intros Hdocs Hdoc.
  destruct (documents_lookup _ _ _ _ _ Hdocs Hdoc) as [Hlt Hmk].
  exists (timestamp_tags_window (timestamps_of tags) (k * stride)).
  split; [by apply windows_lookup|].
  unfold make_document in Hmk.
  destruct (Py.first _) as [head_tag|]; [|done].
  destruct (Py.final _) as [last_tag|] eqn:Hfinal; [|done].
  simpl in Hmk. injection Hmk as <-. simpl.
  unfold Py.final in Hfinal. rewrite last_lookup in Hfinal.
  intros t [i Hi]%list_elem_of_lookup.
  pose proof (lookup_lt_Some _ _ _ Hi) as Hil.
  assert (ordered_by start_idx
            (timestamp_tags_window (timestamps_of tags) (k * stride))) as Ho.
  { apply window_ordered, sorted_by_ordered.
    unfold timestamps_of. apply sorted_sorted_by. }
  eapply (Ho i); [|exact Hi|exact Hfinal]. lia.
Qed.

End TokenOrderContract.

(** ** What a status update leaves alone *)

Section UpdateFrame.
Import Steamship Ingestion Effects.

Lemma stored_tags_status_data fid status d w :
  stored_tags (status_data fid status d w) =
  filter (λ t, tag_id t ∉ deleted_ids (env w) (filter is_status (stored_tags d)))
    (stored_tags d)
  ++ [new_tag (next_id w) fid "status" status].
Proof. reflexivity. Qed.

Lemma deleted_ids_status e (tags : list Tag) i :
  i ∈ deleted_ids e (filter is_status tags) →
  ∃ s, s ∈ tags ∧ is_status s ∧ tag_id s = i.
Proof.
  unfold deleted_ids. intros (s & -> & Hs)%list_elem_of_fmap.
  apply list_elem_of_filter in Hs as [_ Hs].
  apply list_elem_of_filter in Hs as [Hst Hin]. eauto.
Qed.

(** The tags that are no status markers survive the deletion loop when
    none of them shares its id with a status marker. *)
Lemma other_tags_survive e (tags : list Tag) :
  (∀ s t, s ∈ tags → is_status s → t ∈ tags → ¬ is_status t →
          tag_id s ≠ tag_id t) →
  filter (λ t, ¬ is_status t)
    (filter (λ t, tag_id t ∉ deleted_ids e (filter is_status tags)) tags)
  = filter (λ t, ¬ is_status t) tags.
Proof.
  intros Hids. rewrite list_filter_filter. apply filter_ext_elem.
  intros t Ht. split; [by intros [? _]|].
  intros Hnot. split; [done|].
  intros (s & Hs & Hst & Hid)%deleted_ids_status.
  by apply (Hids s t).
Qed.

(** X7: a status update touches status markers only: when no other tag of
    the record shares its id with a status marker, the record keeps its
    other tags (source, title) in order and its blocks, and the update
    changes neither the vector index nor the schedule nor the tasks. *)
Theorem update_keeps_other_tags file status w d :
  files w !! file_ident file = Some d →
  (∀ s t, s ∈ stored_tags d → is_status s → t ∈ stored_tags d →
          ¬ is_status t → tag_id s ≠ tag_id t) →
  ∃ w' d',
    _update_file_status file status w = Ok () w' ∧
    files w' !! file_ident file = Some d' ∧
    filter (λ t, ¬ is_status t) (stored_tags d')
    = filter (λ t, ¬ is_status t) (stored_tags d) ∧
    stored_blocks d' = stored_blocks d ∧
    index w' = index w ∧ scheduled w' = scheduled w ∧ tasks w' = tasks w.
Proof.
  intros Hd Hids. rewrite update_file_status_run, Hd.
  exists (status_updated (file_ident file) status d w),
    (status_data (file_ident file) status d w).
  split; [done|]. split; [apply files_status_updated|].
  split; [|done].
  rewrite stored_tags_status_data, filter_app, other_tags_survive by done.
  rewrite filter_cons_False, filter_nil by (by intros H; apply H).
  by rewrite app_nil_r.
Qed.

End UpdateFrame.

(** ** Failures and repetitions of the stages *)

Section StageFailures.
Import Steamship Ingestion Effects.

Lemma last_status_marker_updated fid status d w :
  files w !! fid = Some d →
  last (status_markers fid (status_updated fid status d w))
  = Some (new_tag (next_id w) fid "status" status).
Proof. intros Hd. by rewrite status_markers_updated, last_snoc. Qed.

(** X8: what a failure inside [index_lecture] leaves behind. Once the
    status update of line 104 has completed, "Indexing" is written, it is
    the newest marker on the record, and the vector index is as it was.
    If the file has no block, the call raises IndexError there, and an
    IndexError of the call means just that: the chunking loop never
    raises, whatever the tags of the first block are. If the insertion of
    the documents raises, the call raises with that exception, with
    "Indexing" still the newest marker on the record and "Indexed" not
    written: the lecture stays on "Indexing". *)
Theorem failed_indexing_leaves_indexing w t source fid d w1 :
  tasks w !! t = Some fid →
  files w !! fid = Some d →
  _update_file_status (snapshot fid d) "Indexing" w = Ok () w1 →
  (status_history fid w1 = status_history fid w ++ ["Indexing"%string] ∧
   last (status_markers fid w1)
   = Some (new_tag (next_id w) fid "status" "Indexing") ∧
   index w1 = index w) ∧
  (stored_blocks d = [] → index_lecture t source w = Raise IndexError w1) ∧
  (∀ w', index_lecture t source w = Raise IndexError w' →
         stored_blocks d = [] ∧ w' = w1) ∧
  (∀ block,
     stored_blocks d !! 0 = Some block →
     ∃ docs,
       Chunker.documents source (Chunker.timestamps_of (block_tags block))
       = Some docs ∧
       ∀ e w', add_documents docs w1 = Raise e w' →
         index_lecture t source w = Raise e w' ∧
         status_history fid w'
         = status_history fid w ++ ["Indexing"%string] ∧
         last (status_markers fid w')
         = Some (new_tag (next_id w) fid "status" "Indexing")).
Proof.
  intros Ht Hd Hupd.
  destruct (indexing_marked w fid d w1 Hd Hupd) as (-> & Hhist & Hidx).
  pose proof (last_status_marker_updated fid "Indexing" d w Hd) as Hlast.
  split; [done|]. rewrite index_lecture_run, Ht, Hd. split_and!.
  - by intros ->.
  - intros w'. destruct (stored_blocks d) as [|block blocks]; simpl.
    { by intros [= <-]. }
    destruct (documents_total source
                (Chunker.timestamps_of (block_tags block))) as [docs ->].
    by destruct (add_documents_fails (env w) docs).
  - intros block Hblock. rewrite Hblock.
    destruct (documents_total source
                (Chunker.timestamps_of (block_tags block))) as [docs Hdocs].
    exists docs. split; [done|]. rewrite Hdocs. unfold add_documents.
    change (env (status_updated fid "Indexing" d w)) with (env w).
    destruct (add_documents_fails (env w) docs); [|done].
    by intros e w' [= <- <-].
Qed.


(** X10: when the title of the source cannot be resolved,
    [transcribe_lecture] raises after it has attached the source tag:
    the record keeps that tag, gets no title and no status, and neither
    a transcription nor [index_lecture] is started. *)
Theorem failed_title_leaves_source_tag w t source fid d :
  tasks w !! t = Some fid →
  files w !! fid = Some d →
  youtube_title (env w) source = None →
  ∃ w',
    transcribe_lecture t source w = Raise PytubeError w' ∧
    files w' !! fid
    = Some (mkFileData
              (stored_tags d ++ [new_tag (next_id w) fid "source" source])
              (stored_blocks d)) ∧
    status_history fid w' = status_history fid w ∧
    scheduled w' = scheduled w ∧
    blockify_tasks w' = blockify_tasks w.
Proof.
  intros Ht Hd Htitle. rewrite transcribe_lecture_run, Ht, Hd, Htitle.
  eexists. split; [reflexivity|]. split; [apply files_tag_created|].
  split; [|done]. rewrite history_tag_created.
  rewrite decide_False by (by intros [? _]). by rewrite app_nil_r.
Qed.

End StageFailures.

(** ** The lecture listing *)

Section ListingFacts.
Import Steamship Ingestion Effects Listing.

Lemma nonempty_elem {A} (l : list A) : nonempty l = true ↔ ∃ x, x ∈ l.
Proof.
  destruct l as [|x l]; simpl; split; try done.
  - intros [x Hx]. by apply elem_of_nil in Hx.
  - intros _. exists x. by left.
Qed.

Lemma tags_of_kind_elem k file t :
  t ∈ tags_of_kind k file ↔ t ∈ file_tags file ∧ kind t = k.
Proof. unfold tags_of_kind. rewrite list_elem_of_filter. tauto. Qed.

Lemma lecture_entry_Some file l :
  lecture_entry file = Some l ↔
  nonempty (tags_of_kind "source" file) = true ∧
  nonempty (tags_of_kind "status" file) = true ∧
  l = mkLecture (first_name (tags_of_kind "source" file))
        (first_name (tags_of_kind "status" file))
        (first_name (tags_of_kind "title" file)).
Proof.
  unfold lecture_entry.
  destruct (nonempty (tags_of_kind "source" file)),
    (nonempty (tags_of_kind "status" file)); simpl;
    (split; [intros Hl|intros (H1 & H2 & ->)]); try done;
    by injection Hl as <-.
Qed.

Lemma first_name_head (tags : list Tag) :
  nonempty tags = true → ∃ t, head tags = Some t ∧ first_name tags = name t.
Proof. destruct tags as [|t tags]; [done|]. intros _. by exists t. Qed.

Lemma lectures_of_elem files l :
  l ∈ lectures_of files ↔ ∃ file, file ∈ files ∧ lecture_entry file = Some l.
Proof.
  induction files as [|file files IH]; simpl.
  - split; [by intros ?%elem_of_nil|]. intros (f & Hf & _).
    by apply elem_of_nil in Hf.
  - destruct (lecture_entry file) as [l0|] eqn:Hentry.
    + rewrite elem_of_cons, IH. split.
      * intros [->|(f & Hf & Hl)]; [exists file|exists f];
          (split; [|done]); [by left|by right].
      * intros (f & [->|Hf]%elem_of_cons & Hl); [left; congruence|].
        right. by exists f.
    + rewrite IH. split.
      * intros (f & Hf & Hl). exists f. split; [by right|done].
      * intros (f & [->|Hf]%elem_of_cons & Hl); [congruence|]. by exists f.
Qed.

Lemma lectures_of_length files : length (lectures_of files) ≤ length files.
Proof.
  induction files as [|file files IH]; simpl; [done|].
  destruct (lecture_entry file); simpl; lia.
Qed.

Lemma get_lectures_run w :
  get_lectures w =
  Ok (lectures_of ((λ p, snapshot p.1 p.2) <$> map_to_list (files w))) w.
Proof. reflexivity. Qed.

Lemma listed_files w file :
  file ∈ ((λ p, snapshot p.1 p.2) <$> map_to_list (files w)) ↔
  ∃ fid d, files w !! fid = Some d ∧ file = snapshot fid d.
Proof.
  rewrite list_elem_of_fmap. split.
  - intros ([fid d] & -> & Hin). apply elem_of_map_to_list in Hin.
    by exists fid, d.
  - intros (fid & d & Hd & ->). exists (fid, d). split; [done|].
    by apply elem_of_map_to_list.
Qed.

(** The status tags of a snapshot are the status markers of the record. *)
Lemma status_tags_snapshot fid d w :
  files w !! fid = Some d →
  tags_of_kind "status" (snapshot fid d) = status_markers fid w.
Proof.
  intros Hd. unfold tags_of_kind, status_markers. rewrite Hd. simpl.
  by apply list_filter_iff.
Qed.

End ListingFacts.

Section ListingContract.
Import Steamship Ingestion Effects Listing.

(** X11: [get_lectures] only reads: it returns without changing the
    workspace, and its list holds exactly the entries of the files that
    carry at least one source tag and at least one status marker; a file
    whose import or transcription stage has written no status yet is left
    out, so the list is at most as long as the list of files. *)
Theorem get_lectures_lists_started_lectures w :
  ∃ lectures,
    get_lectures w = Ok lectures w ∧
    (∀ l, l ∈ lectures ↔
          ∃ fid d, files w !! fid = Some d ∧
                   lecture_entry (snapshot fid d) = Some l) ∧
    (∀ fid d, files w !! fid = Some d →
       (is_Some (lecture_entry (snapshot fid d)) ↔
        (∃ t, t ∈ stored_tags d ∧ kind t = "source"%string) ∧
        (∃ t, t ∈ stored_tags d ∧ kind t = "status"%string))) ∧
    length lectures ≤ size (files w).
Proof.
  eexists. split; [apply get_lectures_run|]. split_and!.
  - intros l. rewrite lectures_of_elem. split.
    + intros (file & (fid & d & Hd & ->)%listed_files & Hl). eauto.
    + intros (fid & d & Hd & Hl). exists (snapshot fid d).
      split; [|done]. apply listed_files. eauto.
  - intros fid d Hd. split.
    + intros [l (Hs & Hst & _)%lecture_entry_Some].
      apply nonempty_elem in Hs as [s Hs], Hst as [st Hst].
      apply tags_of_kind_elem in Hs, Hst. eauto.
    + intros [[s Hs] [st Hst]]. eexists. apply lecture_entry_Some.
      split_and!; [| |done]; apply nonempty_elem;
        [exists s|exists st]; by apply tags_of_kind_elem.
  - etrans; [apply lectures_of_length|].
    by rewrite length_fmap, length_map_to_list.
Qed.

(** X12: an entry of the listing names the file's first source tag and
    its first, that is oldest, status marker; the fallback "unknown" is
    never used for them. The title is that of the first title tag, and
    "unknown" when the file has no title tag. *)
Theorem lecture_entry_fields file l :
  lecture_entry file = Some l →
  (∃ t, head (tags_of_kind "source" file) = Some t ∧ lecture_source l = name t) ∧
  (∃ t, head (tags_of_kind "status" file) = Some t ∧ lecture_status l = name t) ∧
  lecture_title l =
    match head (tags_of_kind "title" file) with
    | Some t => name t
    | None => "unknown"%string
    end.
Proof.
  intros (Hs & Hst & ->)%lecture_entry_Some. simpl.
  split_and!; [by apply first_name_head|by apply first_name_head|].
  by destruct (tags_of_kind "title" file).
Qed.

(** X13: after a status update the listing reports the oldest status
    marker that is still on the record: the new status when every old
    marker has been deleted, and otherwise the status of the first marker
    whose deletion failed, although the new marker has been written. *)
Theorem listing_after_update file status w d :
  files w !! file_ident file = Some d →
  ∃ w' d',
    _update_file_status file status w = Ok () w' ∧
    files w' !! file_ident file = Some d' ∧
    ∀ l, lecture_entry (snapshot (file_ident file) d') = Some l →
         lecture_status l =
         match filter (λ s, delete_fails (env w) (tag_id s) = true)
                 (status_markers (file_ident file) w) with
         | kept :: _ => name kept
         | [] => status
         end.
Proof.
  intros Hd. rewrite update_file_status_run, Hd.
  exists (status_updated (file_ident file) status d w),
    (status_data (file_ident file) status d w).
  split; [done|].
  pose proof (files_status_updated (file_ident file) status d w) as Hd'.
  split; [done|].
  intros l (_ & _ & ->)%lecture_entry_Some. simpl.
  rewrite (status_tags_snapshot _ _ _ Hd'), status_markers_updated by done.
  by destruct (filter _ (status_markers (file_ident file) w)).
Qed.

(** X14: whatever the pipeline has done so far, every entry of the
    listing is the entry of a file of the workspace, and the entry of a
    file is in the listing; the status in the entry of a file is the name
    of the first status marker on that file's record, a marker created
    for that very file; it has been written for that file, and it is one
    of Transcribing, Indexing and Indexed. *)
Theorem listing_reports_written_statuses e w lectures w' :
  rtc pipeline_step (initial e) w →
  get_lectures w = Ok lectures w' →
  (∀ l, l ∈ lectures →
        ∃ fid d, files w !! fid = Some d ∧
                 lecture_entry (snapshot fid d) = Some l) ∧
  (∀ fid d l,
     files w !! fid = Some d →
     lecture_entry (snapshot fid d) = Some l →
     l ∈ lectures ∧
     (∃ t, head (status_markers fid w) = Some t ∧
           file_id t = fid ∧
           t ∈ created_tags w ∧
           lecture_status l = name t) ∧
     lecture_status l ∈ status_history fid w ∧
     lecture_status l ∈ status_order).
Proof.
  intros Hreach. rewrite get_lectures_run. intros [= <- <-]. split.
  { intros l. rewrite lectures_of_elem.
    intros (file & (fid & d & Hd & ->)%listed_files & Hl). eauto. }
  intros fid d l Hd Hl.
  pose proof (pipeline_reachable_inv e w Hreach) as Hinv.
  split.
  { apply lectures_of_elem. exists (snapshot fid d). split; [|done].
    apply listed_files. eauto. }
  apply lecture_entry_Some in Hl as (_ & Hst & ->). simpl.
  destruct (first_name_head _ Hst) as (t & Ht & ->).
  rewrite (status_tags_snapshot fid d w Hd) in Ht.
  assert (t ∈ status_markers fid w) as Hin by (by apply head_Some_elem_of).
  pose proof (carried_marker_written w fid t Hinv Hin) as Hwritten.
  assert (t ∈ stored_tags d) as Hstored.
  { unfold status_markers in Hin. rewrite Hd in Hin.
    by apply list_elem_of_filter in Hin as [_ ?]. }
  destruct (inv_stored w Hinv fid d t Hd Hstored) as [Hcreated Hfile].
  split; [by exists t|]. split; [done|].
  destruct (inv_order w Hinv fid) as [k Hk]. rewrite Hk.
  apply elem_of_app. by left.
Qed.

End ListingContract.

(** ** From a new file to a listed lecture *)

Section EndToEnd.
Import Steamship Ingestion Effects Listing.

(** With a tag service that does not fail, a status update replaces the
    status markers: the other tags stay and the new marker follows. *)
Lemma reliable_status_data fid status d w :
  (∀ i, delete_fails (env w) i = false) →
  (∀ s t, s ∈ stored_tags d → is_status s → t ∈ stored_tags d →
          ¬ is_status t → tag_id s ≠ tag_id t) →
  stored_tags (status_data fid status d w)
  = filter (λ t, ¬ is_status t) (stored_tags d)
    ++ [new_tag (next_id w) fid "status" status].
Proof.
  intros Hrel Hids. rewrite stored_tags_status_data. f_equal.
  apply filter_ext_elem. intros t Ht. split.
  - intros Hnot Hst. apply Hnot. unfold deleted_ids.
    apply list_elem_of_fmap. exists t. split; [done|].
    apply list_elem_of_filter. split; [apply Hrel|].
    by apply list_elem_of_filter.
  - intros Hnot (s & Hs & Hst & Hid)%deleted_ids_status.
    by apply (Hids s t).
Qed.

Lemma entry_of_three fid (d : FileData) i j k source title status :
  stored_tags d = [new_tag i fid "source" source;
                   new_tag j fid "title" title;
                   new_tag k fid "status" status] →
  lecture_entry (snapshot fid d) = Some (mkLecture source status title).
Proof.
  intros Htags. unfold lecture_entry, tags_of_kind. simpl. rewrite Htags.
  reflexivity.
Qed.

(** X15: from a new file to the listing. For a file that carries no tag
    yet, with services that do not fail, [transcribe_lecture] makes the
    lecture appear in the listing with its source, its resolved title and
    the status "Transcribing"; once the transcription has completed,
    [index_lecture] leaves it listed with the status "Indexed". *)
Theorem pipeline_ends_listed_as_indexed w t source fid d title tags :
  tasks w !! t = Some fid →
  files w !! fid = Some d →
  stored_tags d = [] →
  youtube_title (env w) source = Some title →
  (∀ docs, add_documents_fails (env w) docs = false) →
  (∀ i, delete_fails (env w) i = false) →
  ∃ task w1 d1 w3 d3,
    transcribe_lecture t source w = Ok task w1 ∧
    files w1 !! fid = Some d1 ∧
    lecture_entry (snapshot fid d1)
    = Some (mkLecture source "Transcribing" title) ∧
    index_lecture t source
      (blockify_done (S (S (S (next_id w)))) fid tags w1) = Ok true w3 ∧
    files w3 !! fid = Some d3 ∧
    lecture_entry (snapshot fid d3) = Some (mkLecture source "Indexed" title).
Proof.
  intros Ht Hd Hnew Htitle Hidx Hrel.
  rewrite transcribe_lecture_run, Ht, Hd, Htitle.
  set (n := next_id w).
  set (src := new_tag n fid "source" source).
  set (ttl := new_tag (S n) fid "title" title).
  set (w1 := transcribing t fid source title d w).
  set (d1 := status_data fid "Transcribing" (attach ttl (attach src d))
               (tag_created fid "title" title (attach src d)
                  (tag_created fid "source" source d w))).
  assert (files w1 !! fid = Some d1) as Hd1.
  { subst w1 d1. unfold transcribing.
    change (files (later_scheduled ?i (blockify_started ?ff ?w')))
      with (files w').
    apply files_status_updated. }
  assert (stored_tags d1
          = [src; ttl; new_tag (S (S n)) fid "status" "Transcribing"])
    as Htags1.
  { subst d1. rewrite reliable_status_data.
    - simpl. rewrite Hnew. reflexivity.
    - exact Hrel.
    - simpl. rewrite Hnew. simpl. intros s t' Hs Hst.
      apply elem_of_cons in Hs as [->|Hs]; [done|].
      apply list_elem_of_singleton in Hs as ->. done. }
  set (w2 := blockify_done (S (S (S n))) fid tags w1).
  set (d2 := mkFileData (stored_tags d1) [mkBlock tags]).
  assert (files w2 !! fid = Some d2) as Hd2.
  { subst w2 d2.
    change (files (blockify_done ?tt ?ff ?tg ?w'))
      with (alter (λ d, mkFileData (stored_tags d) [mkBlock tg]) ff
              (files w')).
    by rewrite lookup_alter, decide_True, Hd1 by done. }
  destruct (documents_total source (Chunker.timestamps_of tags))
    as [docs Hdocs].
  assert (index_lecture t source w2 = Ok true (indexed fid docs d2 w2))
    as Hrun.
  { rewrite index_lecture_run.
    change (tasks w2) with (tasks w). rewrite Ht, Hd2. simpl.
    rewrite Hdocs. change (env w2) with (env w). by rewrite Hidx. }
  set (d3 := status_data fid "Indexing" d2 w2).
  assert (stored_tags d3
          = [src; ttl; new_tag (next_id w2) fid "status" "Indexing"])
    as Htags3.
  { subst d3. rewrite reliable_status_data.
    - change (stored_tags d2) with (stored_tags d1).
      rewrite Htags1. reflexivity.
    - exact Hrel.
    - change (stored_tags d2) with (stored_tags d1).
      rewrite Htags1. intros s t' Hs Hst Ht' Hnst.
      repeat (apply elem_of_cons in Hs as [->|Hs]; [try done|]);
        [|by apply elem_of_nil in Hs].
      repeat (apply elem_of_cons in Ht' as [->|Ht']; [simpl; try lia|]);
        [|by apply elem_of_nil in Ht'].
      exfalso. by apply Hnst. }
  set (w3 := set_index (index (status_updated fid "Indexing" d2 w2) ++ docs)
               (status_updated fid "Indexing" d2 w2)).
  set (d4 := status_data fid "Indexed" d3 w3).
  assert (files (indexed fid docs d2 w2) !! fid = Some d4) as Hd4.
  { unfold indexed. apply files_status_updated. }
  assert (stored_tags d4
          = [src; ttl; new_tag (next_id w3) fid "status" "Indexed"])
    as Htags4.
  { subst d4. rewrite reliable_status_data.
    - rewrite Htags3. reflexivity.
    - exact Hrel.
    - rewrite Htags3. intros s t' Hs Hst Ht' Hnst.
      repeat (apply elem_of_cons in Hs as [->|Hs]; [try done|]);
        [|by apply elem_of_nil in Hs].
      repeat (apply elem_of_cons in Ht' as [->|Ht']; [simpl; try lia|]);
        [|by apply elem_of_nil in Ht'].
      exfalso. by apply Hnst. }
  exists (S (S (S (S n)))), w1, d1, (indexed fid docs d2 w2), d4.
  split_and!; try done.
  - by eapply entry_of_three.
  - by eapply entry_of_three.
Qed.

End EndToEnd.

(** ** Trimming *)

Section Trimming.
Import Shapes.
Implicit Types (s : string) (c : Ascii.ascii).

Lemma lstrip_spec s :
  ∃ l, chars s = l ++ chars (Py.lstrip s) ∧
       Forall (λ c, Py.isspace c = true) l ∧
       ∀ c, head (chars (Py.lstrip s)) = Some c → Py.isspace c = false.
Proof.
  induction s as [|c s IH]; simpl.
  - exists []. split_and!; done.
  - destruct (Py.isspace c) eqn:Hc.
    + destruct IH as (l & Hl & Hblank & Hhead).
      exists (c :: l). split_and!; [by rewrite Hl|by constructor|done].
    + exists []. split_and!; [done|done|].
      simpl. by intros c' [= <-].
Qed.

Lemma rstrip_spec s :
  ∃ r, chars s = chars (Py.rstrip s) ++ r ∧
       Forall (λ c, Py.isspace c = true) r ∧
       ∀ c, last (chars (Py.rstrip s)) = Some c → Py.isspace c = false.
Proof.
  induction s as [|c s IH]; simpl.
  - exists []. split_and!; done.
  - destruct IH as (r & Hr & Hblank & Hlast).
    destruct (Py.rstrip s) as [|a rest] eqn:Hrs.
    + simpl in Hr. destruct (Py.isspace c) eqn:Hc.
      * exists (c :: r). split_and!; [by rewrite Hr|by constructor|done].
      * exists r. split_and!; [by rewrite Hr|done|].
        simpl. by intros c' [= <-].
    + exists r. split_and!; [simpl in *; by rewrite Hr|done|].
      simpl in *. exact Hlast.
Qed.

Lemma rstrip_head s c :
  head (chars (Py.rstrip s)) = Some c → head (chars s) = Some c.
Proof.
  destruct (rstrip_spec s) as (r & Hr & _ & _). rewrite Hr.
  by destruct (chars (Py.rstrip s)).
Qed.

Lemma strip_spec s :
  ∃ l r, chars s = l ++ chars (Py.strip s) ++ r ∧
         Forall (λ c, Py.isspace c = true) l ∧
         Forall (λ c, Py.isspace c = true) r ∧
         trimmed (Py.strip s).
Proof.
  unfold Py.strip.
  destruct (lstrip_spec s) as (l & Hl & Hbl & Hhead).
  destruct (rstrip_spec (Py.lstrip s)) as (r & Hr & Hbr & Hlast).
  exists l, r. split_and!; [by rewrite Hl, Hr|done|done|].
  split; [|done]. intros c Hc. by apply Hhead, rstrip_head.
Qed.

Lemma lstrip_trimmed s :
  (∀ c, head (chars s) = Some c → Py.isspace c = false) → Py.lstrip s = s.
Proof.
  destruct s as [|c s]; simpl; [done|]. intros Hhead.
  by rewrite (Hhead c eq_refl).
Qed.

Lemma rstrip_trimmed s :
  (∀ c, last (chars s) = Some c → Py.isspace c = false) → Py.rstrip s = s.
Proof.
  induction s as [|c s IH]; simpl; [done|]. intros Hlast.
  destruct s as [|a s].
  - simpl. by rewrite (Hlast c eq_refl).
  - rewrite IH by (intros c' Hc'; by apply Hlast). done.
Qed.

Lemma strip_trimmed s : trimmed s → Py.strip s = s.
Proof.
  intros [Hhead Hlast]. unfold Py.strip.
  by rewrite lstrip_trimmed, rstrip_trimmed.
Qed.

End Trimming.

Section AnswerText.
Import QA Shapes.

(** X16: on the path with sources, the answer [answer] returns is the
    generated answer without the white space around it and nothing else
    removed: it neither begins nor ends with white space, and the
    generated answer is some white space, the returned answer, and some
    white space again. An answer that is trimmed already is returned
    unchanged. *)
Theorem returned_answer_is_trimmed self question chat_session_id store
    result calls :
  qa_chain self question
    (ChatHistory_load
       (Py.or_ chat_session_id (default_chat_session_id (config self)))
       store) = Some (result, calls) →
  source_documents result ≠ [] →
  ∃ response store' events,
    answer self question chat_session_id store
    = Some (response, store', events) ∧
    trimmed (response_answer response) ∧
    (∃ l r,
       chars (chain_answer result)
       = l ++ chars (response_answer response) ++ r ∧
       Forall (λ c, Py.isspace c = true) l ∧
       Forall (λ c, Py.isspace c = true) r) ∧
    (trimmed (chain_answer result) →
     response_answer response = chain_answer result).
Proof.
  intros Hchain Hne. rewrite answer_run. simpl. rewrite Hchain.
  rewrite decide_False by (by intros ?%length_zero_iff_nil).
  eexists _, _, _. split; [reflexivity|]. simpl.
  destruct (strip_spec (chain_answer result)) as (l & r & Hs & Hl & Hr & Ht).
  split_and!; [done|by exists l, r|apply strip_trimmed].
Qed.

(** X17: the history is threaded from call to call: after a call of
    [answer] with sources, the next call for the same session hands the
    chain the earlier turns followed by the question and the generated
    answer of that call, with its surrounding white space. *)
Theorem next_call_sees_appended_turn self question chat_session_id store
    result calls next_question :
  qa_chain self question
    (ChatHistory_load
       (Py.or_ chat_session_id (default_chat_session_id (config self)))
       store) = Some (result, calls) →
  source_documents result ≠ [] →
  let session :=
    Py.or_ chat_session_id (default_chat_session_id (config self)) in
  let chat_history :=
    ChatHistory_load session store ++ [(question, chain_answer result)] in
  ∃ response store' events,
    answer self question chat_session_id store
    = Some (response, store', events) ∧
    match answer self next_question chat_session_id store' with
    | Some (_, _, next_events) =>
        ∃ next_result next_calls rest,
          qa_chain self next_question chat_history
          = Some (next_result, next_calls) ∧
          next_events
          = HistoryLoad session
            :: ChainCall next_question chat_history next_calls :: rest
    | None => qa_chain self next_question chat_history = None
    end.
Proof.
  intros Hchain Hne session chat_history.
  rewrite answer_run. simpl. fold session. fold session in Hchain.
  rewrite Hchain.
  rewrite decide_False by (by intros ?%length_zero_iff_nil).
  eexists _, _, _. split; [reflexivity|].
  rewrite answer_run. simpl. fold session.
  assert (ChatHistory_load session
            (ChatHistory_append session question (chain_answer result) store)
          = chat_history) as ->.
  { unfold ChatHistory_append, ChatHistory_load at 1.
    by rewrite lookup_insert_eq. }
  destruct (qa_chain self next_question chat_history)
    as [[next_result next_calls]|]; [|done].
  case_decide; eexists next_result, next_calls, _; (split; [done|]);
    reflexivity.
Qed.

End AnswerText.

(** ** The chunks a lecture gets *)

Section LectureChunks.
Import Steamship Ingestion Effects Chunker Shapes.

Lemma document_last_token source (timestamps : list Tag) docs k doc :
  documents source timestamps = Some docs →
  docs !! k = Some doc →
  ∃ last_tag,
    timestamps !! ((k * stride + context_window_size)
                     `min` length timestamps - 1) = Some last_tag ∧
    md_start_idx (metadata doc) = start_idx last_tag ∧
    md_source (metadata doc) = source.
Proof.
  intros Hdocs Hdoc.
  destruct (documents_lookup _ _ _ _ _ Hdocs Hdoc) as [Hlt Hmk].
  unfold make_document in Hmk.
  destruct (Py.first _) as [head_tag|]; [|done].
  destruct (Py.final _) as [last_tag|] eqn:Hfinal; [|done].
  simpl in Hmk. injection Hmk as <-.
  rewrite window_final in Hfinal by done. by exists last_tag.
Qed.

(** X18: the chunks of a lecture come in the order of the transcript: the
    [start_idx] recorded for a chunk is never larger than the one
    recorded for the next chunk. *)
Theorem chunks_in_transcript_order source (tags : list Tag) docs k d1 d2 :
  documents source (timestamps_of tags) = Some docs →
  docs !! k = Some d1 →
  docs !! S k = Some d2 →
  (md_start_idx (metadata d1) ≤ md_start_idx (metadata d2))%Z.
Proof.
  intros Hdocs H1 H2.
  destruct (document_last_token _ _ _ _ _ Hdocs H1) as (t1 & Ht1 & -> & _).
  destruct (document_last_token _ _ _ _ _ Hdocs H2) as (t2 & Ht2 & -> & _).
  assert (ordered_by start_idx (timestamps_of tags)) as Ho.
  { apply sorted_by_ordered. unfold timestamps_of. apply sorted_sorted_by. }
  eapply Ho; [|exact Ht1|exact Ht2].
  rewrite stride_eq. unfold context_window_size. lia.
Qed.

(** X19: a successful [index_lecture] reads the first block of the file
    only: it appends to the vector index the chunks of that block's
    timestamp tags, one for every started 150 of them, each with the
    given source, and leaves the documents already indexed in place. *)
Theorem indexing_inserts_chunks_of_first_block w t source b w' :
  index_lecture t source w = Ok b w' →
  ∃ fid d block docs,
    tasks w !! t = Some fid ∧
    files w !! fid = Some d ∧
    head (stored_blocks d) = Some block ∧
    documents source (timestamps_of (block_tags block)) = Some docs ∧
    index w' = index w ++ docs ∧
    length docs
    = (length (filter (λ tag, kind tag = "timestamp"%string)
                 (block_tags block)) + 149) `div` 150 ∧
    Forall (λ doc, md_source (metadata doc) = source) docs.
Proof.
  rewrite index_lecture_run.
  destruct (tasks w !! t) as [fid|] eqn:Ht; [|done].
  destruct (files w !! fid) as [d|] eqn:Hd; [|done].
  destruct (stored_blocks d !! 0) as [block|] eqn:Hblock; [|done].
  destruct (documents _ _) as [docs|] eqn:Hdocs; [|done].
  destruct (add_documents_fails (env w) docs) eqn:Hfails; [done|].
  intros [= <- <-]. exists fid, d, block, docs.
  split_and!; try done.
  - by rewrite head_lookup.
  - rewrite (documents_length _ _ _ Hdocs), windows_count.
    unfold timestamps_of.
    by rewrite (Permutation_length (sorted_Permutation _ _)).
  - apply Forall_lookup. intros k doc Hdoc.
    by destruct (document_last_token _ _ _ _ _ Hdocs Hdoc) as (? & _ & _ & ?).
Qed.

End LectureChunks.

(** ** The further properties on sample data *)

Section ChunkCases.
Import Chunker Shapes Examples Cases.

(** A witness for X2: window 1 of a transcript of 301 tokens. *)
Lemma window_sizes_witness :
  windows (transcript 301) !! 1
  = Some (timestamp_tags_window (transcript 301) 150) ∧
  length (timestamp_tags_window (transcript 301) 150)
  = 200 `min` (length (transcript 301) - 1 * 150) ∧
  1 ≤ length (timestamp_tags_window (transcript 301) 150) ≤ 200.
Proof.
  assert (windows (transcript 301) !! 1
          = Some (timestamp_tags_window (transcript 301) 150)) as H
    by (vm_compute; reflexivity).
  split; [exact H|].
  destruct (window_sizes _ _ _ H) as (Hlen & Hbounds & _).
  split; [exact Hlen|exact Hbounds].
Defined.

(** A witness for X4: position 170 of a transcript of 301 tokens. *)
Lemma position_in_at_most_two_windows_witness :
  170 < length (transcript 301) ∧
  (covers (transcript 301) 0 170 ↔
   0 = 170 `div` 150 ∨ (1 = 170 `div` 150 ∧ 170 `mod` 150 < 50)).
Proof.
  assert (170 < length (transcript 301)) as H.
  { unfold transcript. rewrite length_fmap, length_seq. lia. }
  split; [exact H|].
  exact (proj1 (position_in_at_most_two_windows (transcript 301) 0 170 H)).
Defined.

(** A witness for X6: the two chunks of a transcript of 160 tokens. *)
Lemma chunk_start_idx_is_largest_witness :
  documents lecture_url (timestamps_of (transcript 160))
  = Some transcript_chunks ∧
  ∃ doc window,
    transcript_chunks !! 1 = Some doc ∧
    windows (timestamps_of (transcript 160)) !! 1 = Some window ∧
    ∀ t, t ∈ window → (start_idx t ≤ md_start_idx (metadata doc))%Z.
Proof.
  assert (documents lecture_url (timestamps_of (transcript 160))
          = Some transcript_chunks) as Hdocs by (vm_compute; reflexivity).
  split; [exact Hdocs|].
  destruct (lookup_lt_is_Some_2 transcript_chunks 1) as [doc Hdoc].
  { vm_compute. lia. }
  destruct (chunk_start_idx_is_largest _ _ _ _ _ Hdocs Hdoc)
    as (window & Hw & Hle).
  exists doc, window. split; [exact Hdoc|]. split; [exact Hw|exact Hle].
Defined.

(** A witness for X18: the same two chunks. *)
Lemma chunks_in_transcript_order_witness :
  ∃ d1 d2,
    transcript_chunks !! 0 = Some d1 ∧
    transcript_chunks !! 1 = Some d2 ∧
    (md_start_idx (metadata d1) ≤ md_start_idx (metadata d2))%Z.
Proof.
  assert (documents lecture_url (timestamps_of (transcript 160))
          = Some transcript_chunks) as Hdocs by (vm_compute; reflexivity).
  destruct (lookup_lt_is_Some_2 transcript_chunks 0) as [d1 H1].
  { vm_compute. lia. }
  destruct (lookup_lt_is_Some_2 transcript_chunks 1) as [d2 H2].
  { vm_compute. lia. }
  exists d1, d2. split; [exact H1|]. split; [exact H2|].
  exact (chunks_in_transcript_order _ _ _ _ _ _ Hdocs H1 H2).
Defined.

End ChunkCases.

Section StageCases.
Import Steamship Ingestion Effects Listing Examples Cases.

Lemma lecture_world_file e :
  files (lecture_world e) !! file_ident lecture_file
  = Some (mkFileData [source_tag; transcribing_tag] []).
Proof. reflexivity. Qed.

Lemma lecture_tags_distinct s t :
  s ∈ [source_tag; transcribing_tag] → is_status s →
  t ∈ [source_tag; transcribing_tag] → ¬ is_status t →
  tag_id s ≠ tag_id t.
Proof.
  intros Hs Hst Ht Hnt.
  repeat (apply elem_of_cons in Hs as [->|Hs]; [try done|]);
    [|by apply elem_of_nil in Hs].
  repeat (apply elem_of_cons in Ht as [->|Ht]; [try done|]);
    by apply elem_of_nil in Ht.
Qed.

(** A witness for X7: the lecture file with its source tag and the
    marker "Transcribing" is set to "Indexing". *)
Lemma update_keeps_other_tags_witness :
  ∃ w' d',
    _update_file_status lecture_file "Indexing" (lecture_world reliable)
    = Ok () w' ∧
    files w' !! file_ident lecture_file = Some d' ∧
    filter (λ t, ¬ is_status t) (stored_tags d')
    = filter (λ t, ¬ is_status t) [source_tag; transcribing_tag] ∧
    stored_blocks d' = [] ∧
    index w' = index (lecture_world reliable) ∧
    scheduled w' = scheduled (lecture_world reliable) ∧
    tasks w' = tasks (lecture_world reliable).
Proof.
  exact (update_keeps_other_tags lecture_file "Indexing"
           (lecture_world reliable) _ (lecture_world_file reliable)
           lecture_tags_distinct).
Defined.

(** A witness for X8: the lecture file without a block, and the
    transcribed lecture while the vector index is down. *)
Lemma failed_indexing_leaves_indexing_witness :
  index_lecture 5 lecture_url (lecture_world reliable)
  = Raise IndexError
      (status_updated 7 "Indexing"
         (mkFileData [source_tag; transcribing_tag] [])
         (lecture_world reliable)) ∧
  status_history 7
    (status_updated 7 "Indexing"
       (mkFileData [source_tag; transcribing_tag] [])
       (lecture_world reliable))
  = status_history 7 (lecture_world reliable) ++ ["Indexing"%string] ∧
  index_lecture 5 lecture_url stalled_world
  = Raise SteamshipError
      (status_updated 7 "Indexing" transcribed_lecture stalled_world) ∧
  last (status_markers 7
          (status_updated 7 "Indexing" transcribed_lecture stalled_world))
  = Some (new_tag 8 7 "status" "Indexing").
Proof.
  assert (tasks (lecture_world reliable) !! 5 = Some 7) as Ht
    by reflexivity.
  assert (files (lecture_world reliable) !! 7
          = Some (mkFileData [source_tag; transcribing_tag] [])) as Hd
    by reflexivity.
  assert (_update_file_status
            (snapshot 7 (mkFileData [source_tag; transcribing_tag] []))
            "Indexing" (lecture_world reliable)
          = Ok () (status_updated 7 "Indexing"
                     (mkFileData [source_tag; transcribing_tag] [])
                     (lecture_world reliable))) as Hupd
    by (vm_compute; reflexivity).
  destruct (failed_indexing_leaves_indexing (lecture_world reliable) 5
              lecture_url 7 _ _ Ht Hd Hupd)
    as ((Hhist & _ & _) & Hnone & _ & _).
  split; [exact (Hnone eq_refl)|]. split; [exact Hhist|].
  assert (tasks stalled_world !! 5 = Some 7) as Ht' by reflexivity.
  assert (files stalled_world !! 7 = Some transcribed_lecture) as Hd'
    by reflexivity.
  assert (_update_file_status (snapshot 7 transcribed_lecture) "Indexing"
            stalled_world
          = Ok () (status_updated 7 "Indexing" transcribed_lecture
                     stalled_world)) as Hupd'
    by (vm_compute; reflexivity).
  destruct (failed_indexing_leaves_indexing stalled_world 5 lecture_url 7
              _ _ Ht' Hd' Hupd')
    as (_ & _ & _ & Hblock).
  destruct (Hblock (mkBlock (transcript 3)) eq_refl) as (docs & _ & Hfail).
  destruct (Hfail SteamshipError
              (status_updated 7 "Indexing" transcribed_lecture stalled_world)
              eq_refl) as (Hrun & _ & Hlast).
  split; [exact Hrun|exact Hlast].
Defined.

Lemma transcribed_world_indexed :
  index_lecture 5 lecture_url transcribed_world
  = Ok true (indexed 7 transcript_chunks transcribed_data transcribed_world).
Proof. vm_compute. reflexivity. Qed.


(** A witness for X19: the transcribed lecture is indexed. *)
Lemma indexing_inserts_chunks_of_first_block_witness :
  ∃ fid d block docs,
    tasks transcribed_world !! 5 = Some fid ∧
    files transcribed_world !! fid = Some d ∧
    head (stored_blocks d) = Some block ∧
    Chunker.documents lecture_url (Chunker.timestamps_of (block_tags block))
    = Some docs ∧
    index (indexed 7 transcript_chunks transcribed_data transcribed_world)
    = index transcribed_world ++ docs ∧
    length docs
    = (length (filter (λ tag, kind tag = "timestamp"%string)
                 (block_tags block)) + 149) `div` 150 ∧
    Forall (λ doc, md_source (metadata doc) = lecture_url) docs.
Proof.
  exact (indexing_inserts_chunks_of_first_block _ _ _ _ _
           transcribed_world_indexed).
Defined.

(** A witness for X10: the imported file, and no title to be had. *)
Lemma failed_title_leaves_source_tag_witness :
  ∃ w',
    transcribe_lecture 5 lecture_url (imported_world no_title)
    = Raise PytubeError w' ∧
    files w' !! 7
    = Some (mkFileData ([] ++ [new_tag 8 7 "source" lecture_url]) []) ∧
    status_history 7 w' = status_history 7 (imported_world no_title) ∧
    scheduled w' = scheduled (imported_world no_title) ∧
    blockify_tasks w' = blockify_tasks (imported_world no_title).
Proof.
  exact (failed_title_leaves_source_tag (imported_world no_title) 5
           lecture_url 7 (mkFileData [] []) eq_refl eq_refl eq_refl).
Defined.

(** A witness for X12: the lecture file has no title tag. *)
Lemma lecture_entry_fields_witness :
  lecture_entry lecture_file
  = Some (mkLecture lecture_url "Transcribing" "unknown") ∧
  (∃ t, head (tags_of_kind "source" lecture_file) = Some t
        ∧ lecture_url = name t) ∧
  (∃ t, head (tags_of_kind "status" lecture_file) = Some t
        ∧ "Transcribing"%string = name t).
Proof.
  assert (lecture_entry lecture_file
          = Some (mkLecture lecture_url "Transcribing" "unknown")) as H
    by reflexivity.
  split; [exact H|].
  destruct (lecture_entry_fields _ _ H) as (Hs & Hst & _).
  split; [exact Hs|exact Hst].
Defined.

(** A witness for X13: the deletion of the marker "Transcribing" fails;
    after the update to "Indexing" the entry still says "Transcribing". *)
Lemma listing_after_update_witness :
  ∃ w' d',
    _update_file_status lecture_file "Indexing"
      (lecture_world (deletion_of_fails 1)) = Ok () w' ∧
    files w' !! file_ident lecture_file = Some d' ∧
    ∀ l, lecture_entry (snapshot (file_ident lecture_file) d') = Some l →
         lecture_status l = "Transcribing"%string.
Proof.
  exact (listing_after_update lecture_file "Indexing"
           (lecture_world (deletion_of_fails 1)) _
           (lecture_world_file (deletion_of_fails 1))).
Defined.

Lemma sample_run_reachable : rtc pipeline_step (initial reliable) run5.
Proof.
  assert (pipeline_step (initial reliable) run1) as Hadd
    by apply pipeline_add_lecture.
  assert (pipeline_step run1 run2) as Himported.
  { apply (pipeline_import_done run1 0 lecture_url).
    vm_compute. constructor. }
  assert (pipeline_step run2 run3) as Htranscribe.
  { apply (pipeline_scheduled run2 transcribe_inv).
    - vm_compute. constructor.
    - apply Forall_singleton. vm_compute. reflexivity. }
  assert (pipeline_step run3 run4) as Htranscribed.
  { apply (pipeline_blockify_done run3 6 2). vm_compute. constructor. }
  assert (pipeline_step run4 run5) as Hindex.
  { apply (pipeline_scheduled run4 index_inv).
    - vm_compute. constructor.
    - apply Forall_singleton. vm_compute. reflexivity. }
  apply (rtc_r _ run4); [|exact Hindex].
  apply (rtc_r _ run3); [|exact Htranscribed].
  apply (rtc_r _ run2); [|exact Htranscribe].
  apply (rtc_r _ run1); [|exact Himported].
  apply rtc_once, Hadd.
Qed.

(** A witness for X14: the listing at the end of the sample run holds the
    entry of file 2, whose status "Indexed" is in the history of file 2. *)
Lemma listing_reports_written_statuses_witness :
  ∃ lectures d,
    get_lectures run5 = Ok lectures run5 ∧
    lectures = [mkLecture lecture_url "Indexed" "Lecture 1"] ∧
    files run5 !! 2 = Some d ∧
    lecture_entry (snapshot 2 d)
    = Some (mkLecture lecture_url "Indexed" "Lecture 1") ∧
    mkLecture lecture_url "Indexed" "Lecture 1" ∈ lectures ∧
    "Indexed"%string ∈ status_history 2 run5 ∧
    "Indexed"%string ∈ status_order.
Proof.
  eexists _, _. split; [apply get_lectures_run|].
  split; [vm_compute; reflexivity|].
  assert (files run5 !! 2
          = Some (mkFileData
                    [new_tag 3 2 "source" lecture_url;
                     new_tag 4 2 "title" "Lecture 1";
                     new_tag 9 2 "status" "Indexed"]
                    [mkBlock (transcript 3)])) as Hd
    by (vm_compute; reflexivity).
  split; [exact Hd|].
  assert (lecture_entry
            (snapshot 2
               (mkFileData
                  [new_tag 3 2 "source" lecture_url;
                   new_tag 4 2 "title" "Lecture 1";
                   new_tag 9 2 "status" "Indexed"]
                  [mkBlock (transcript 3)]))
          = Some (mkLecture lecture_url "Indexed" "Lecture 1")) as Hentry
    by reflexivity.
  split; [exact Hentry|].
  destruct (proj2 (listing_reports_written_statuses reliable run5 _ run5
                     sample_run_reachable (get_lectures_run run5))
              2 _ _ Hd Hentry) as (Hin & _ & Hwritten & Horder).
  split; [exact Hin|]. split; [exact Hwritten|exact Horder].
Defined.

(** A witness for X15: the imported file goes through both stages. *)
Lemma pipeline_ends_listed_as_indexed_witness :
  ∃ task w1 d1 w3 d3,
    transcribe_lecture 5 lecture_url (imported_world reliable) = Ok task w1 ∧
    files w1 !! 7 = Some d1 ∧
    lecture_entry (snapshot 7 d1)
    = Some (mkLecture lecture_url "Transcribing" "Lecture 1") ∧
    index_lecture 5 lecture_url (blockify_done 11 7 (transcript 3) w1)
    = Ok true w3 ∧
    files w3 !! 7 = Some d3 ∧
    lecture_entry (snapshot 7 d3)
    = Some (mkLecture lecture_url "Indexed" "Lecture 1").
Proof.
  exact (pipeline_ends_listed_as_indexed (imported_world reliable) 5
           lecture_url 7 (mkFileData [] []) "Lecture 1" (transcript 3)
           eq_refl eq_refl eq_refl eq_refl (λ _, eq_refl) (λ _, eq_refl)).
Defined.

End StageCases.

Section AnswerCases.
Import QA Shapes Examples.

Lemma passage_chain_result :
  qa_chain (service chain_over_passage) "What is X?"
    (ChatHistory_load
       (Py.or_ None
          (default_chat_session_id (config (service chain_over_passage))))
       ∅)
  = Some (mkChainResult " X is a thing. " [passage],
          [SimilaritySearch "What is X?" 2;
           CombineDocs [passage] "What is X?"]).
Proof. reflexivity. Qed.

Lemma passage_found :
  source_documents (mkChainResult " X is a thing. " [passage]) ≠ [].
Proof. discriminate. Qed.

(** A witness for X16: the answer model pads its completion. *)
Lemma returned_answer_is_trimmed_witness :
  ∃ response store' events,
    answer (service chain_over_passage) "What is X?" None ∅
    = Some (response, store', events) ∧
    trimmed (response_answer response) ∧
    (∃ l r,
       chars " X is a thing. " = l ++ chars (response_answer response) ++ r ∧
       Forall (λ c, Py.isspace c = true) l ∧
       Forall (λ c, Py.isspace c = true) r).
Proof.
  destruct (returned_answer_is_trimmed _ _ _ _ _ _ passage_chain_result
              passage_found)
    as (response & store' & events & Hanswer & Htrimmed & Hparts & _).
  exists response, store', events.
  split; [exact Hanswer|]. split; [exact Htrimmed|exact Hparts].
Defined.

(** A witness for X17: a second question in the same session. *)
Lemma next_call_sees_appended_turn_witness :
  ∃ response store' events,
    answer (service chain_over_passage) "What is X?" None ∅
    = Some (response, store', events) ∧
    match answer (service chain_over_passage) "And Y?" None store' with
    | Some (_, _, next_events) =>
        ∃ next_result next_calls rest,
          qa_chain (service chain_over_passage) "And Y?"
            ([] ++ [("What is X?", " X is a thing. ")%string])
          = Some (next_result, next_calls) ∧
          next_events
          = HistoryLoad (Some "default"%string)
            :: ChainCall "And Y?"
                 ([] ++ [("What is X?", " X is a thing. ")%string])
                 next_calls
            :: rest
    | None =>
        qa_chain (service chain_over_passage) "And Y?"
          ([] ++ [("What is X?", " X is a thing. ")%string]) = None
    end.
Proof.
  exact (next_call_sees_appended_turn _ _ _ _ _ _ "And Y?"
           passage_chain_result passage_found).
Defined.

End AnswerCases.
